(** * Home Assistant registry maintenance scripts: a shallow embedding

    The development follows the four scripts of the repository:
    - [fix_automation_registry.py] and the [fix-registry] command of
      [ha_migrate_automation_ids.py] (merging [_2] duplicates),
    - the [generate] and [execute] commands of
      [ha_migrate_automation_ids.py], with the workflow around them
      (stopping Home Assistant, waiting, uploading, rebooting),
    - [ha_backup_registry.py] (backup, list, restore, clean),
    - the [stats] command of [ha_entity_metadata.py].

    Python objects that are shared and mutated (the registry entries, which
    are reachable both from the entity list and from the [automations]
    dictionary) live in an explicit heap; external programs (scp, ssh), the
    clock, the user's answers, the JSON codec with the exceptions it
    raises, and [str.isdigit] are inputs of the model. *)

From Stdlib Require Import ZArith String Ascii List Lia.
From stdpp Require Import base decidable option list gmap strings sorting.

Local Open Scope Z_scope.
Local Open Scope nat_scope.

(** ** Python strings *)

Module PyStr.

(** [s.startswith(p)] *)
Definition startswith (p s : string) : bool := String.prefix p s.

(** [s.endswith(suf)] *)
Definition endswith (suf s : string) : bool :=
  (String.length suf <=? String.length s) &&
  String.eqb (String.substring (String.length s - String.length suf)
                               (String.length suf) s) suf.

(** [s[:-n]] for a positive literal [n] *)
Definition drop_last (n : nat) (s : string) : string :=
  String.substring 0 (String.length s - n) s.

(** [s[n:]] *)
Fixpoint drop_first (n : nat) (s : string) : string :=
  match n, s with
  | O, _ => s
  | S n', String _ s' => drop_first n' s'
  | S _, EmptyString => EmptyString
  end.



Definition lower_ascii (c : ascii) : ascii :=
  let n := nat_of_ascii c in
  if (65 <=? n) && (n <=? 90) then ascii_of_nat (n + 32) else c.

(** [s.lower()] on ASCII text *)
Fixpoint lower (s : string) : string :=
  match s with
  | EmptyString => EmptyString
  | String c s' => String (lower_ascii c) (lower s')
  end.

End PyStr.

(** ** JSON values as Python sees them after [json.load]

    Numbers are integers (the registry holds no floats); an object is an
    association list whose keys are distinct. *)

#[local] Unset Elimination Schemes.
Inductive json : Type :=
  | JNull
  | JBool (b : bool)
  | JNum (n : Z)
  | JStr (s : string)
  | JArr (l : list json)
  | JObj (o : list (string * json)).
#[local] Set Elimination Schemes.

Fixpoint assoc {V : Type} (k : string) (o : list (string * V)) : option V :=
  match o with
  | [] => None
  | (k', v) :: o' => if decide (k = k') then Some v else assoc k o'
  end.

(** Python's [==] on such values: [True == 1] and [False == 0], lists
    compare elementwise, dicts compare as maps (order of keys ignored). *)
Fixpoint py_eq (x y : json) : bool :=
  match x, y with
  | JNull, JNull => true
  | JBool a, JBool b => Bool.eqb a b
  | JBool a, JNum n => (n =? Z.b2z a)%Z
  | JNum n, JBool a => (n =? Z.b2z a)%Z
  | JNum a, JNum b => (a =? b)%Z
  | JStr a, JStr b => String.eqb a b
  | JArr l, JArr l' =>
      (fix go (l l' : list json) : bool :=
         match l, l' with
         | [], [] => true
         | a :: l, b :: l' => py_eq a b && go l l'
         | _, _ => false
         end) l l'
  | JObj o, JObj o' =>
      (length o =? length o') &&
      (fix all (o : list (string * json)) : bool :=
         match o with
         | [] => true
         | (k, v) :: o =>
             match assoc k o' with
             | Some v' => py_eq v v'
             | None => false
             end && all o
         end) o
  | _, _ => false
  end.

(** Python truthiness, as used by [if a.get("area_id")]. *)
Definition truthy (v : json) : bool :=
  match v with
  | JNull => false
  | JBool b => b
  | JNum n => negb (n =? 0)%Z
  | JStr s => negb (String.eqb s EmptyString)
  | JArr l => negb (bool_decide (length l = 0))
  | JObj o => negb (bool_decide (length o = 0))
  end.

(** ** Registry entries

    An entry of [core.entity_registry] is a JSON object that always carries
    the string fields [entity_id] and [unique_id]; [fields] holds every
    other key ([area_id], [icon], [labels], [platform], ...). *)

Record entry : Type := Entry {
  entity_id : string;
  unique_id : string;
  fields : gmap string json
}.

(** [e.get(k)] for a key other than the two above; a missing key gives
    [None], which is Python's [None] *)
Definition entry_get (k : string) (e : entry) : json :=
  default JNull (fields e !! k).

(** [e["unique_id"] = u] *)
Definition set_unique_id (u : string) (e : entry) : entry :=
  {| entity_id := entity_id e; unique_id := u; fields := fields e |}.

(** [e1 == e2] on two entries (dict equality) *)
Definition py_eq_entry (e1 e2 : entry) : bool :=
  String.eqb (entity_id e1) (entity_id e2) &&
  String.eqb (unique_id e1) (unique_id e2) &&
  bool_decide (dom (fields e1) = dom (fields e2)) &&
  forallb (λ kv, match fields e2 !! kv.1 with
                 | Some v' => py_eq kv.2 v'
                 | None => false
                 end) (map_to_list (fields e1)).

Definition is_automation (e : entry) : bool :=
  PyStr.startswith "automation." (entity_id e).

(** ** Insertion-ordered dictionaries

    [automations] is a Python [dict]: iteration follows the order in which
    keys were first inserted, and assigning to an existing key replaces its
    value in place. *)

Definition pydict (V : Type) : Type := list (string * V).

Fixpoint dict_set {V : Type} (k : string) (v : V) (d : pydict V) : pydict V :=
  match d with
  | [] => [(k, v)]
  | (k', v') :: d' =>
      if decide (k = k') then (k', v) :: d' else (k', v') :: dict_set k v d'
  end.

Definition dict_get {V : Type} (k : string) (d : pydict V) : option V :=
  assoc k d.

(** ** The duplicate-fix operation

    [fix_automation_registry.main], lines 46-83, and
    [ha_migrate_automation_ids.cmd_fix_registry], lines 466-501, are the same
    code up to the text they print. *)

Module Fix.

(** Entries are objects: [heap] holds them by address (the position of the
    entry in the list that [json.load] built), [live] is the Python list
    [entities], a list of references. *)
Record store : Type := Store {
  heap : list entry;
  live : list nat
}.

(** [{e["entity_id"]: e for e in entities if
      e["entity_id"].startswith("automation.")}] *)
Definition automations_from (d : pydict nat) (ies : list (nat * entry))
  : pydict nat :=
  foldl (λ d ie, if is_automation ie.2
                 then dict_set (entity_id ie.2) ie.1 d else d) d ies.

Definition automations (entities : list entry) : pydict nat :=
  automations_from [] (imap pair entities).

(** The test [list.remove] applies to each element [x] of the list:
    [x is entry or x == entry], for the [entry] at address [a]. *)
Definition matches (h : list entry) (a x : nat) : bool :=
  (x =? a) ||
  match h !! x, h !! a with
  | Some ex, Some ea => py_eq_entry ex ea
  | _, _ => false
  end.

(** [entities.remove(entry)]: drops the first reference that matches;
    [None] stands for the [ValueError] raised when there is none. *)
Fixpoint list_remove (h : list entry) (a : nat) (l : list nat)
  : option (list nat) :=
  match l with
  | [] => None
  | x :: rest =>
      if matches h a x then Some rest
      else cons x <$> list_remove h a rest
  end.

(** One iteration of the loop over [list(automations.items())].  The
    addresses come from [automations], so the two heap lookups succeed. *)
Definition step (autos : pydict nat) (st : store) (item : string * nat)
  : option store :=
  let '(eid, a) := item in
  if PyStr.endswith "_2" eid then
    let base_entity_id := PyStr.drop_last 2 eid in
    match dict_get base_entity_id autos with
    | Some b =>
        ea ← heap st !! a;
        eb ← heap st !! b;
        let new_unique_id := unique_id ea in
        let h' := <[b := set_unique_id new_unique_id eb]> (heap st) in
        l' ← list_remove h' a (live st);
        Some {| heap := h'; live := l' |}
    | None => Some st
    end
  else Some st.

Fixpoint loop (autos : pydict nat) (items : list (string * nat))
    (st : store) : option store :=
  match items with
  | [] => Some st
  | it :: items' => st' ← step autos st it; loop autos items' st'
  end.

Definition init (entities : list entry) : store :=
  {| heap := entities; live := seq 0 (length entities) |}.

(** The entity list as it is serialised afterwards. *)
Definition contents (st : store) : list entry :=
  omap (λ a, heap st !! a) (live st).

Definition run (entities : list entry) : option store :=
  let autos := automations entities in
  loop autos autos (init entities).

Definition fix_registry (entities : list entry) : option (list entry) :=
  contents <$> run entities.

(** *** The work of the loop

    The same loop, observed: for each visit, the number of dictionary
    operations (on [automations] and on the entries) and the number of list
    elements that [entities.remove] compares with the entry. *)

(** The elements [list.remove] looks at: all up to the first match. *)
Fixpoint remove_scan (h : list entry) (a : nat) (l : list nat) : nat :=
  match l with
  | [] => 0
  | x :: rest => if matches h a x then 1 else S (remove_scan h a rest)
  end.

Record ops : Type := Ops {
  merged : bool;
  dict_ops : nat;
  scanned : nat
}.

Definition step_ops (autos : pydict nat) (st : store) (item : string * nat)
  : ops :=
  let '(eid, a) := item in
  if PyStr.endswith "_2" eid then
    let base_entity_id := PyStr.drop_last 2 eid in
    match dict_get base_entity_id autos with          (* [in]: 1 *)
    | Some b =>                                       (* [automations[..]]: 1 *)
        match heap st !! a, heap st !! b with
        | Some ea, Some eb =>
            let h' := <[b := set_unique_id (unique_id ea) eb]> (heap st) in
            let old_entry := set_unique_id (unique_id ea) eb in
            {| merged := true;
               (* two reads and a write of [unique_id], three [get], and
                  the reads of [area_id] and [labels] that are printed *)
               dict_ops :=
                 2 + 3 + 3 +
                 (if truthy (entry_get "area_id" old_entry) then 1 else 0) +
                 (if truthy (entry_get "labels" old_entry) then 1 else 0);
               scanned := remove_scan h' a (live st) |}
        | _, _ => {| merged := true; dict_ops := 2; scanned := 0 |}
        end
    | None => {| merged := false; dict_ops := 1; scanned := 0 |}
    end
  else {| merged := false; dict_ops := 0; scanned := 0 |}.

Fixpoint loop_ops (autos : pydict nat) (items : list (string * nat))
    (st : store) : list ops :=
  match items with
  | [] => []
  | it :: items' =>
      step_ops autos st it ::
      match step autos st it with
      | Some st' => loop_ops autos items' st'
      | None => []
      end
  end.

(** One record per visit of the loop. *)
Definition run_ops (entities : list entry) : list ops :=
  let autos := automations entities in
  loop_ops autos autos (init entities).

(** All the elements compared by [entities.remove] during a run. *)
Definition total_scanned (entities : list entry) : nat :=
  sum_list (scanned <$> run_ops entities).

(** The entry the loop writes to when it visits key [k]: the value of
    [automations[k[:-2]]] when [k] ends in [_2] and that key exists. *)
Definition target (autos : pydict nat) (k : string) : option nat :=
  if PyStr.endswith "_2" k
  then dict_get (PyStr.drop_last 2 k) autos else None.

End Fix.

(** *** Vocabulary for the statements about the duplicate fix *)

(** No two entries of the registry carry the same automation id. *)
Definition unique_automation_ids (l : list entry) : Prop :=
  ∀ i j ei ej,
    l !! i = Some ei → l !! j = Some ej →
    is_automation ei = true → entity_id ei = entity_id ej → i = j.

(** [d] is an automation entry whose id ends in [_2]. *)
Definition is_suffixed (d : entry) : bool :=
  is_automation d && PyStr.endswith "_2" (entity_id d).

(** The id of [d] with its last two characters removed. *)
Definition base_id (d : entry) : string := PyStr.drop_last 2 (entity_id d).

(** [d] is a [_2] duplicate of [b]. *)
Definition duplicate_of (d b : entry) : Prop :=
  is_suffixed d = true ∧ is_automation b = true ∧ base_id d = entity_id b.

(** [e'] is [e] up to its unique id. *)
Definition same_frame (e' e : entry) : Prop :=
  entity_id e' = entity_id e ∧ fields e' = fields e.

(** The registry starts with [m] entries that are not automations. *)
Definition bystanders_first (m : nat) (reg : list entry) : Prop :=
  ∀ x, x < m → ∃ e, reg !! x = Some e ∧ is_automation e = false.

(** Some entry of [l] is a [_2] duplicate of [b]. *)
Definition has_duplicate (l : list entry) (b : entry) : Prop :=
  ∃ d, d ∈ l ∧ duplicate_of d b.

(** Some entry of [l] is the original of the [_2] entry [d]. *)
Definition has_base (l : list entry) (d : entry) : Prop :=
  ∃ b, b ∈ l ∧ duplicate_of d b.


(** ** The migration tool: [generate] and [execute]

    [ha_migrate_automation_ids.py], [cmd_generate] lines 186-208 and
    [cmd_execute] lines 374-385. *)

Module Migrate.



Section generate.
(** [str.isdigit], which Python decides from the Unicode database: true
    of a non-empty string whose characters all are digits, the ASCII ones
    and those of other scripts alike. *)
Variable isdigit : string → bool.



End generate.

(** Step 3 of [cmd_execute]: the loop over [entities] with its counter
    [updated].  [id_mapping] maps an old unique id to the new one (the plan
    file gives strings); every entry is a distinct object, visited once. *)
Fixpoint cmd_execute_update (id_mapping : gmap string string)
    (entities : list entry) (updated : nat) : list entry * nat :=
  match entities with
  | [] => ([], updated)
  | e :: rest =>
      let old_unique_id := unique_id e in
      match id_mapping !! old_unique_id with
      | Some new_unique_id =>
          let '(rest', n) := cmd_execute_update id_mapping rest (S updated) in
          (set_unique_id new_unique_id e :: rest', n)
      | None =>
          let '(rest', n) := cmd_execute_update id_mapping rest updated in
          (e :: rest', n)
      end
  end.

End Migrate.





(** ** Exceptions

    A Python function either returns or lets an exception escape. *)

Inductive exn : Type :=
  | AttributeError
  | TypeError
  | ValueError
  | KeyError
  | FileNotFoundError
  | JSONDecodeError
  | UnicodeDecodeError
  | ZeroDivisionError.

Inductive outcome (A : Type) : Type :=
  | Returned (a : A)
  | Raised (e : exn).
Arguments Returned {A} a.
Arguments Raised {A} e.

(** Sequencing: an exception raised by the first computation escapes. *)
#[global] Instance outcome_ret : MRet outcome := λ A a, Returned a.
#[global] Instance outcome_bind : MBind outcome := λ A B k m,
  match m with
  | Returned a => k a
  | Raised e => Raised e
  end.

(** ** [fix_automation_registry.main] as a whole

    The script reads the clock and the registry file, writes a backup next
    to it and writes the registry back.  [decode] and [encode] stand for
    [json.load] followed by [registry["data"]["entities"]] and for
    [json.dump]; [decode] raises what either raises: [JSONDecodeError] on
    text that is not JSON, [UnicodeDecodeError] on bytes that are not
    text, [KeyError] or [TypeError] on JSON without the entity list. *)

Module FixMain.

(** The registry document: the entity list and everything around it. *)
Record document : Type := Document {
  entities : list entry;
  envelope : json
}.

Definition REGISTRY_PATH : string :=
  "/homeassistant/.storage/core.entity_registry".

(** [REGISTRY_PATH.with_suffix(f".backup.{ts}")]: the suffix
    [.entity_registry] of the file name is replaced. *)
Definition backup_path (ts : string) : string :=
  ("/homeassistant/.storage/core" +:+ ".backup." +:+ ts)%string.

Section main.
Variable decode : string → outcome document.
Variable encode : document → string.

(** [ts] is [datetime.now().strftime("%Y%m%d_%H%M%S")], [fs] the file
    system (path to content). *)
Definition main (ts : string) (fs : gmap string string)
  : outcome unit * gmap string string :=
  match fs !! REGISTRY_PATH with
  | None => (Raised FileNotFoundError, fs)         (* shutil.copy *)
  | Some text =>
      let fs1 := <[backup_path ts := text]> fs in
      match fs1 !! REGISTRY_PATH with
      | None => (Raised FileNotFoundError, fs1)    (* open *)
      | Some text1 =>
          match decode text1 with
          | Raised e => (Raised e, fs1)            (* json.load, [..] *)
          | Returned registry =>
              match Fix.fix_registry (entities registry) with
              | None => (Raised ValueError, fs1)   (* entities.remove *)
              | Some out =>
                  let registry' :=
                    {| entities := out; envelope := envelope registry |} in
                  (Returned (), <[REGISTRY_PATH := encode registry']> fs1)
              end
          end
      end
  end.

End main.

End FixMain.

(** ** The [stats] command

    [ha_entity_metadata.cmd_stats], lines 198-211. *)

Module Stats.

(** [a // b] on integers *)
Definition py_floordiv (a b : Z) : outcome Z :=
  if (b =? 0)%Z then Raised ZeroDivisionError else Returned (a / b)%Z.

(** [100*count//total if total else 0] *)
Definition coverage (count total : Z) : outcome Z :=
  if negb (total =? 0)%Z then py_floordiv (100 * count) total
  else Returned 0%Z.

Definition py_len {A : Type} (l : list A) : Z := Z.of_nat (length l).

Record report : Type := Report {
  total : Z;
  with_area : Z;
  with_icon : Z;
  with_labels : Z;
  pct_area : Z;
  pct_icon : Z;
  pct_labels : Z
}.

(** The numbers [cmd_stats] prints for the registry it received. *)
Definition cmd_stats (entities : list entry) : outcome report :=
  let automations := filter (λ e, is_automation e = true) entities in
  let total := py_len automations in
  let with_area :=
    py_len (filter (λ a, truthy (entry_get "area_id" a) = true) automations) in
  let with_icon :=
    py_len (filter (λ a, truthy (entry_get "icon" a) = true) automations) in
  let with_labels :=
    py_len (filter (λ a, truthy (entry_get "labels" a) = true) automations) in
  pa ← coverage with_area total;
  pi ← coverage with_icon total;
  pl ← coverage with_labels total;
  Returned {| total := total; with_area := with_area;
              with_icon := with_icon; with_labels := with_labels;
              pct_area := pa; pct_icon := pi; pct_labels := pl |}.

End Stats.

(** ** The backup tool

    [ha_backup_registry.py]: [backup] lines 58-90, [restore] lines 127-192,
    [clean] lines 195-219. *)

Module Backup.

(** The local directory [BACKUP_DIR]: [None] when it does not exist,
    otherwise its files, name to content. *)
Definition localfs : Type := option (gmap string string).

Definition files (fs : localfs) : gmap string string := default ∅ fs.

(** [f"entity_registry.{timestamp}.json"] *)
Definition backup_name (timestamp : string) : string :=
  ("entity_registry." +:+ timestamp +:+ ".json")%string.

(** What a run of [scp] towards a local file did: its return code, and the
    content it left in the destination file, if it wrote any. *)
Record scp_result : Type := ScpResult {
  returncode : Z;
  written : option string
}.

Definition after_scp (name : string) (r : scp_result) (fs : localfs)
  : localfs :=
  match written r with
  | Some text => Some (<[name := text]> (files fs))
  | None => fs
  end.

(** [d.get(k, default)]: only a dict has [get]. *)
Definition py_get (d : json) (k : string) (default : json) : outcome json :=
  match d with
  | JObj o => Returned (from_option id default (assoc k o))
  | _ => Raised AttributeError
  end.

(** [len(v)] *)
Definition py_len (v : json) : outcome Z :=
  match v with
  | JArr l => Returned (Z.of_nat (length l))
  | JObj o => Returned (Z.of_nat (length o))
  | JStr s => Returned (Z.of_nat (String.length s))
  | _ => Raised TypeError
  end.

(** [len(data.get("data", {}).get("entities", []))] *)
Definition entity_count (data : json) : outcome Z :=
  d ← py_get data "data" (JObj []);
  es ← py_get d "entities" (JArr []);
  py_len es.

(** The commands sent to the Home Assistant host. *)
Inductive command : Type :=
  | SshCopyRegistry (remote_backup : string)   (* sudo cp REGISTRY backup *)
  | ScpUpload (name : string) (text : string)  (* scp file host:/tmp/... *)
  | SshMoveToRegistry.                         (* sudo mv /tmp/... REGISTRY *)

Definition REMOTE_REGISTRY : string :=
  "/homeassistant/.storage/core.entity_registry".

Section tool.
  (** [open] and [json.load] on the content of a file: the value, or the
      exception raised, [JSONDecodeError] for text that is not JSON and
      [UnicodeDecodeError] for bytes that are not text. *)
Variable json_loads : string → outcome json.

(** [timestamp] is the formatted clock, [scp] what the transfer does. *)
Definition backup (timestamp : string) (scp : scp_result) (fs : localfs)
  : outcome (option string) * localfs :=
  let fs0 : localfs := Some (files fs) in                     (* mkdir *)
  let backup_path := backup_name timestamp in
  let fs1 := after_scp backup_path scp fs0 in
  if negb (returncode scp =? 0)%Z then (Returned None, fs1)
  else
    match files fs1 !! backup_path with
    | None => (Raised FileNotFoundError, fs1)       (* open *)
    | Some text =>
        match json_loads text with
        | Raised JSONDecodeError =>                 (* except JSONDecodeError *)
            (Returned None, Some (delete backup_path (files fs1)))
        | Raised e => (Raised e, fs1)               (* not caught *)
        | Returned data =>
            match entity_count data with
            | Raised e => (Raised e, fs1)
            | Returned _ => (Returned (Some backup_path), fs1)
            end
        end
    end.

(** [answer] is what the user types at the prompt, [remote] the return
    code of each command on the host.  The result comes with the commands
    sent, in order. *)
Definition restore (timestamp : string) (answer : string)
    (remote : command → Z) (fs : localfs) : outcome bool * list command :=
  let backup_path := backup_name timestamp in
  match files fs !! backup_path with
  | None => (Returned false, [])                    (* not exists() *)
  | Some text =>
      match json_loads text with
      | Raised JSONDecodeError => (Returned false, [])   (* except *)
      | Raised e => (Raised e, [])                  (* not caught *)
      | Returned data =>
          match entity_count data with
          | Raised e => (Raised e, [])
          | Returned _ =>
              if negb (String.eqb (PyStr.lower answer) "y")
              then (Returned false, [])
              else
                let remote_backup :=
                  (REMOTE_REGISTRY +:+ ".pre_restore." +:+ timestamp)%string in
                let c1 := SshCopyRegistry remote_backup in
                let c2 := ScpUpload backup_path text in
                let c3 := SshMoveToRegistry in
                (* the return code of [c1] only triggers a warning *)
                if negb (remote c2 =? 0)%Z then (Returned false, [c1; c2])
                else if negb (remote c3 =? 0)%Z
                     then (Returned false, [c1; c2; c3])
                     else (Returned true, [c1; c2; c3])
          end
      end
  end.

End tool.

(** [fnmatch(name, "entity_registry.*.json")] *)
Definition is_backup_name (name : string) : bool :=
  PyStr.startswith "entity_registry." name &&
  PyStr.endswith ".json" name &&
  (String.length "entity_registry." + String.length ".json"
     <=? String.length name).

(** The order of [sorted(..., reverse=True)]: greater names first. *)
Definition newer_first (x y : string) : Prop := String.le y x.

#[global] Instance newer_first_dec : RelDecision newer_first :=
  λ x y, String.le_dec y x.

(** [sorted(BACKUP_DIR.glob("entity_registry.*.json"), reverse=True)] *)
Definition list_sorted_backups (fs : localfs) : list string :=
  merge_sort newer_first
    (filter (λ n, is_backup_name n = true) (elements (dom (files fs)))).

(** [l[k:]] for an integer [k]: a negative [k] counts from the end. *)
Definition py_slice_from {A : Type} (k : Z) (l : list A) : list A :=
  if (0 <=? k)%Z then drop (Z.to_nat k) l
  else drop (Z.to_nat (Z.of_nat (length l) + k)) l.

(** The loop over [to_remove]: [unlink_ok] tells for which names
    [unlink] succeeds; a failure is reported and skipped. *)
Fixpoint remove_all (unlink_ok : string → bool) (to_remove : list string)
    (fs : localfs) (removed : Z) : Z * localfs :=
  match to_remove with
  | [] => (removed, fs)
  | name :: rest =>
      if unlink_ok name
      then remove_all unlink_ok rest (Some (delete name (files fs)))
             (removed + 1)%Z
      else remove_all unlink_ok rest fs removed
  end.

Definition clean (keep : Z) (unlink_ok : string → bool) (fs : localfs)
  : Z * localfs :=
  if negb (bool_decide (is_Some fs)) then (0%Z, fs)    (* not exists() *)
  else
    let backups := list_sorted_backups fs in
    if (Z.of_nat (length backups) <=? keep)%Z then (0%Z, fs)
    else remove_all unlink_ok (py_slice_from keep backups) fs 0%Z.

End Backup.

(** *** Sample registries *)

Module Samples.

(** An original with metadata, its [_2] duplicate, and bystanders. *)
Definition kitchen : entry :=
  Entry "automation.kitchen" "1700000000001"
        {[ "area_id" := JStr "kitchen"; "icon" := JStr "mdi:stove";
           "labels" := JArr [JStr "climate"] ]}.
Definition kitchen_2 : entry :=
  Entry "automation.kitchen_2" "kitchen_lights" ∅.
Definition porch_2 : entry := Entry "automation.porch_2" "porch" ∅.
Definition sensor_2 : entry := Entry "sensor.temp_2" "1700000000001" ∅.

Definition home : list entry := [kitchen; kitchen_2; sensor_2; porch_2].

(** A [_2] entry without original that is itself the original of a
    [_2_2] entry. *)
Definition hall_2 : entry := Entry "automation.hall_2" "hall_old" ∅.
Definition hall_2_2 : entry := Entry "automation.hall_2_2" "hall_new" ∅.

Definition chain : list entry := [hall_2; hall_2_2].

(** A scene that happens to carry the unique id of an automation. *)
Definition scene : entry := Entry "scene.morning" "1700000000001" ∅.

(** An automation whose id holds [automation.] a second time. *)
Definition nested : entry :=
  Entry "automation.home_automation.lights" "1700000000002" ∅.

(** A registry of [3 * n] entries: [n] sensors, then [n] automations with
    their [n] duplicates. *)
Fixpoint marks (i : nat) : string :=
  match i with
  | O => EmptyString
  | S i' => String "x" (marks i')
  end.
Definition room (i : nat) : string := ("automation.room" +:+ marks i)%string.
Definition original (i : nat) : entry := Entry (room i) "old" ∅.
Definition duplicate (i : nat) : entry :=
  Entry (room i +:+ "_2")%string "new" ∅.
Definition sensor : entry := Entry "sensor.temp" "t" ∅.

Definition crowd (n : nat) : list entry :=
  replicate n sensor ++ (original <$> seq 0 n) ++ (duplicate <$> seq 0 n).

Definition plan : gmap string string :=
  {[ "1700000000001" := "kitchen_lights" ]}.




(** A stand-in for [json.load] that knows three sample texts (written
    with single quotes) and rejects every other text. *)
Definition registry_text : string :=
  "{'data': {'entities': [{}, {}]}}".
Definition truncated_text : string := "{'data': {'ent".
Definition list_text : string := "[]".

Definition loads (text : string) : outcome json :=
  if decide (text = registry_text)
  then Returned
         (JObj [("data", JObj [("entities", JArr [JObj []; JObj []])])])
  else if decide (text = list_text) then Returned (JArr [])
  else Raised JSONDecodeError.

(** A backup directory with three backups and two other files. *)
Definition backup_dir : Backup.localfs :=
  Some {[ "entity_registry.20260101_000000.json" := registry_text;
          "entity_registry.20260102_000000.json" := list_text;
          "entity_registry.20260103_000000.json" := registry_text;
          "entity_registry.json" := registry_text;
          "notes.txt" := "keep me" ]}.

Definition always_ok (name : string) : bool := true.

Definition host_ok (c : Backup.command) : Z := 0%Z.

(** A transfer that breaks off after the first bytes. *)
Definition broken_scp : Backup.scp_result :=
  {| Backup.returncode := 1; Backup.written := Some truncated_text |}.

(** A stand-in codec for the registry document. *)
Definition decode (text : string) : outcome FixMain.document :=
  if decide (text = "home")
  then Returned {| FixMain.entities := home; FixMain.envelope := JNull |}
  else Raised JSONDecodeError.

Definition encode (doc : FixMain.document) : string :=
  String.concat "," (unique_id <$> FixMain.entities doc).

End Samples.


(** ** Listing the backups

    [ha_backup_registry.list_backups], lines 93-124. *)

Module Listing.

(** [s.find(c)] for a character: the index of its first occurrence. *)
Fixpoint find (c : ascii) (s : string) : option nat :=
  match s with
  | EmptyString => None
  | String a s' => if Ascii.eqb a c then Some 0 else S <$> find c s'
  end.

(** [s.rfind(c)] for a character: the index of its last occurrence. *)
Fixpoint rfind (c : ascii) (s : string) : option nat :=
  match s with
  | EmptyString => None
  | String a s' =>
      match rfind c s' with
      | Some i => Some (S i)
      | None => if Ascii.eqb a c then Some 0 else None
      end
  end.

(** [Path.stem] of a file name: the name without its last suffix; a dot
    that opens or closes the name starts no suffix. *)
Definition stem (name : string) : string :=
  match rfind "." name with
  | Some i =>
      if (0 <? i) && (i <? String.length name - 1)
      then String.substring 0 i name
      else name
  | None => name
  end.

(** [s.split(".", 1)[1]]: what follows the first dot; [None] stands for
    the [IndexError] of a string without dot. *)
Definition after_first_dot (s : string) : option string :=
  i ← find "." s; Some (PyStr.drop_first (S i) s).

(** [backup_path.stem.split(".", 1)[1]] *)
Definition timestamp_of (name : string) : option string :=
  after_first_dot (stem name).

(** A line of the table: the timestamp, the number of entities ([None]
    when the script prints [invalid]), and the size in bytes. *)
Record row : Type := Row {
  ts : string;
  shown_count : option Z;
  size : nat
}.

(** How a listing breaks off. *)
Inductive failure : Type :=
  | IndexError
  | Uncaught (e : exn).

Section list_backups.
Variable json_loads : string → outcome json.

(** The [try]: [JSONDecodeError] and [KeyError] are caught, whatever else
    [open], [json.load] or the counting raises is not. *)
Definition count_entities (text : string) : outcome (option Z) :=
  match json_loads text ≫= Backup.entity_count with
  | Returned n => Returned (Some n)
  | Raised JSONDecodeError | Raised KeyError => Returned None  (* invalid *)
  | Raised e => Raised e
  end.

(** The loop over [backups]: the rows printed, and the failure that ended
    the loop, if any. *)
Fixpoint print_rows (fs : Backup.localfs) (backups : list string)
  : list row * option failure :=
  match backups with
  | [] => ([], None)
  | backup_path :: rest =>
      match timestamp_of backup_path with
      | None => ([], Some IndexError)
      | Some timestamp =>
          match Backup.files fs !! backup_path with
          | None => ([], Some (Uncaught FileNotFoundError))   (* open *)
          | Some text =>
              match count_entities text with
              | Raised e => ([], Some (Uncaught e))
              | Returned shown =>
                  let '(rows, failed) := print_rows fs rest in
                  ({| ts := timestamp; shown_count := shown;
                      size := String.length text |} :: rows, failed)
              end
          end
      end
  end.

(** The list returned, or the failure, with the rows printed. *)
Definition list_backups (fs : Backup.localfs)
  : (failure + list string) * list row :=
  if negb (bool_decide (is_Some fs)) then (inr [], [])    (* not exists() *)
  else
    let backups := Backup.list_sorted_backups fs in
    match backups with
    | [] => (inr [], [])
    | _ =>
        match print_rows fs backups with
        | (rows, Some f) => (inl f, rows)
        | (rows, None) => (inr backups, rows)
        end
    end.

End list_backups.

End Listing.

(** What the loop of [list_backups] prints for the backup [name]. *)
Definition row_of (json_loads : string → outcome json) (fs : Backup.localfs)
    (name : string) (r : Listing.row) : Prop :=
  Backup.backup_name (Listing.ts r) = name ∧
  ∃ text, Backup.files fs !! name = Some text ∧
          Listing.size r = String.length text ∧
          Listing.count_entities json_loads text =
            Returned (Listing.shown_count r).

(** ** The workflows of the migration tool

    [ha_migrate_automation_ids]: [stop_ha], [wait_for_ha_stop],
    [reboot_ha], and the commands [execute] and [fix-registry] around the
    loops modelled above.  What the commands do to the outside world is
    recorded as a trace of events; what the outside world answers is
    collected in a record of inputs. *)

Module Workflow.

(** [needle in hay] on strings *)
Fixpoint contains (needle hay : string) : bool :=
  String.prefix needle hay ||
  match hay with
  | EmptyString => false
  | String _ hay' => contains needle hay'
  end.

(** What [urllib.request.urlopen] does.  [HTTPError], raised for an
    answer with an error status, is a subclass of [URLError]; both come
    with the text that [str(e)] gives. *)
Inductive http_result : Type :=
  | Responded
  | HTTPError (code : Z) (text : string)
  | URLError (text : string)
  | OtherError (e : exn).

Inductive event : Type :=
  | LocalBackup                (* backup_registry() *)
  | StopRequest                (* POST .../api/services/homeassistant/stop *)
  | Probe                      (* sleep(2), then GET .../api/ *)
  | Fetch                      (* scp the registry from the host *)
  | Upload (text : string)     (* scp the new registry to /tmp on the host *)
  | Move                       (* sudo mv over the registry of the host *)
  | Reboot.                    (* sudo reboot *)

#[global] Instance event_eq_dec : EqDecision event.
Proof. solve_decision. Defined.

(** How a command ends before its last line: it returns early after the
    user declined, calls [sys.exit], or raises. *)
Inductive ending : Type :=
  | Cancelled
  | Exited (code : Z)
  | Crashed (e : exn).

(** A piece of a command: the events it caused, and its value unless the
    command ended in it.  A command is a [proc unit]: the value [()] says
    that it ran to its last line. *)
Definition proc (A : Type) : Type := list event * (ending + A).

#[global] Instance proc_ret : MRet proc := λ A a, ([], inr a).
#[global] Instance proc_bind : MBind proc := λ A B k m,
  match m with
  | (t, inl e) => (t, inl e)
  | (t, inr a) => let '(t', r) := k a in (t ++ t', r)
  end.

Definition emit (ev : event) : proc unit := ([ev], inr ()).
Definition stop {A : Type} (e : ending) : proc A := ([], inl e).

(** [sys.exit(1)] unless [ok] *)
Definition guard (ok : bool) : proc unit :=
  if ok then mret () else stop (Exited 1).

Definition of_outcome {A : Type} (o : outcome A) : proc A :=
  match o with
  | Returned a => mret a
  | Raised e => stop (Crashed e)
  end.

(** [token] is [os.environ.get("HASS_TOKEN")], [response] what the
    request does. *)
Definition stop_ha (token : option string) (response : http_result)
  : proc bool :=
  match token with
  | None | Some EmptyString => mret false               (* not token *)
  | Some _ =>
      _ ← emit StopRequest;
      match response with
      | Responded => mret true
      | HTTPError _ text | URLError text =>
          mret (contains "Connection refused" text)
      | OtherError e => stop (Crashed e)
      end
  end.

(** The loop of [wait_for_ha_stop]: [n] rounds are left, and [probe i]
    is what the request of round [i] does. *)
Fixpoint wait_rounds (probe : nat → http_result) (n i : nat) : proc bool :=
  match n with
  | O => mret false                                     (* timeout! *)
  | S n' =>
      _ ← emit Probe;
      match probe i with
      | Responded => wait_rounds probe n' (S i)
      | HTTPError _ _ | URLError _ => mret true         (* stopped! *)
      | OtherError e => stop (Crashed e)
      end
  end.

(** [range(max_wait // 2)] is empty for a [max_wait] below 2. *)
Definition wait_for_ha_stop (max_wait : Z) (probe : nat → http_result)
  : proc bool :=
  wait_rounds probe (Z.to_nat (max_wait / 2)) 0.

(** The return code of [ssh] is ignored. *)
Definition reboot_ha : proc bool := _ ← emit Reboot; mret true.

(** What the outside world answers to a command. *)
Record world : Type := World {
  confirm : outcome string;          (* [input("Continue? [y/N]: ")] *)
  confirm_anyway : outcome string;   (* [input("Continue anyway? ...")] *)
  backup_module : bool;              (* [ha_backup_registry] was imported *)
  clock : string;                    (* the timestamp [backup] formats *)
  backup_scp : Backup.scp_result;    (* the transfer of [backup] *)
  backup_dir : Backup.localfs;       (* the local backup directory *)
  migrations : outcome (list (string * string));
  token : option string;
  stop_response : http_result;
  probe : nat → http_result;
  fetched : option string;           (* [scp_get]: the text, if it worked *)
  put_ok : bool;                     (* [scp_put] *)
  mv_returncode : Z                  (* [ssh_cmd] of the [mv] *)
}.

(** [id_mapping[str(old_id)] = new_id] for the items in turn: a later
    item with the same key replaces an earlier one. *)
Definition build_id_mapping (items : list (string * string))
  : gmap string string :=
  foldl (λ id_mapping item, <[item.1 := item.2]> id_mapping) ∅ items.

Section commands.
Variable json_loads : string → outcome json.
Variable decode : string → outcome FixMain.document.
Variable encode : FixMain.document → string.

(** The prompt that opens both commands: anything but [y] or [Y] makes
    the command return. *)
Definition confirmed (input : outcome string) : proc unit :=
  confirm ← of_outcome input;
  if negb (String.eqb (PyStr.lower confirm) "y") then stop Cancelled
  else mret ().

(** The prompt of [execute] after a wait that timed out: anything but
    [y] or [Y] makes the command exit. *)
Definition continue_anyway (gone : bool) (input : outcome string)
  : proc unit :=
  if negb gone then
    confirm ← of_outcome input;
    guard (String.eqb (PyStr.lower confirm) "y")
  else mret ().

(** Step 1 of both commands *)
Definition create_backup (w : world) : proc unit :=
  if backup_module w then
    _ ← emit LocalBackup;
    backup_path ← of_outcome
      (Backup.backup json_loads (clock w) (backup_scp w) (backup_dir w)).1;
    guard (bool_decide (is_Some backup_path))
  else mret ().

(** The upload, the move and the reboot that end both commands *)
Definition install (text : string) (w : world) : proc unit :=
  _ ← emit (Upload text);
  _ ← guard (put_ok w);
  _ ← emit Move;
  _ ← guard (mv_returncode w =? 0)%Z;
  _ ← reboot_ha;
  mret ().

(** [scp_get] and [json.load] of the fetched registry *)
Definition fetch_registry (w : world) : proc FixMain.document :=
  _ ← emit Fetch;
  match fetched w with
  | None => stop (Exited 1)
  | Some text => of_outcome (decode text)
  end.

(** [migrations] stands for the items of [config.get("migrations", {})],
    keys through [str], or for what reading the plan raised; an empty
    list is falsy. *)
Definition cmd_execute (w : world) : proc unit :=
  _ ← confirmed (confirm w);
  _ ← create_backup w;
  items ← of_outcome (migrations w);
  _ ← guard (negb (bool_decide (items = [])));
  let id_mapping := build_id_mapping items in
  stopped ← stop_ha (token w) (stop_response w);
  _ ← guard stopped;
  gone ← wait_for_ha_stop 60 (probe w);
  _ ← continue_anyway gone (confirm_anyway w);
  registry ← fetch_registry w;
  let '(entities, updated) :=
    Migrate.cmd_execute_update id_mapping (FixMain.entities registry) 0 in
  install (encode {| FixMain.entities := entities;
                     FixMain.envelope := FixMain.envelope registry |}) w.

Definition cmd_fix_registry (w : world) : proc unit :=
  _ ← confirmed (confirm w);
  _ ← create_backup w;
  stopped ← stop_ha (token w) (stop_response w);
  _ ← guard stopped;
  gone ← wait_for_ha_stop 60 (probe w);        (* only a warning *)
  registry ← fetch_registry w;
  match Fix.fix_registry (FixMain.entities registry) with
  | None => stop (Crashed ValueError)              (* entities.remove *)
  | Some entities =>
      install (encode {| FixMain.entities := entities;
                         FixMain.envelope := FixMain.envelope registry |}) w
  end.

End commands.

End Workflow.

(** [except urllib.error.URLError] catches the request's failure. *)
Definition caught_as_URLError (r : Workflow.http_result) : Prop :=
  match r with
  | Workflow.HTTPError _ _ | Workflow.URLError _ => True
  | _ => False
  end.

(** [execute] gets as far as uploading [text]: the user confirmed, the
    backup, if the module is there, returned a path, the plan is not
    empty, the stop request was accepted, Home Assistant was seen to stop
    or the user confirmed once more, and the registry was fetched and
    read; [text] is that registry with the plan applied. *)
Definition execute_ready (json_loads : string → outcome json)
    (decode : string → outcome FixMain.document)
    (encode : FixMain.document → string)
    (w : Workflow.world) (text : string) : Prop :=
  (∃ a, Workflow.confirm w = Returned a ∧ PyStr.lower a = "y") ∧
  (Workflow.backup_module w = true →
   ∃ path, (Backup.backup json_loads (Workflow.clock w)
              (Workflow.backup_scp w) (Workflow.backup_dir w)).1
           = Returned (Some path)) ∧
  (Workflow.stop_ha (Workflow.token w) (Workflow.stop_response w)).2
    = inr true ∧
  ((Workflow.wait_for_ha_stop 60 (Workflow.probe w)).2 = inr true ∨
   (Workflow.wait_for_ha_stop 60 (Workflow.probe w)).2 = inr false ∧
   ∃ a, Workflow.confirm_anyway w = Returned a ∧ PyStr.lower a = "y") ∧
  ∃ items raw registry,
    Workflow.migrations w = Returned items ∧ items ≠ [] ∧
    Workflow.fetched w = Some raw ∧ decode raw = Returned registry ∧
    text = encode
      {| FixMain.entities :=
           (Migrate.cmd_execute_update (Workflow.build_id_mapping items)
              (FixMain.entities registry) 0).1;
         FixMain.envelope := FixMain.envelope registry |}.

(** [fix-registry] gets as far as uploading [text]: as for [execute],
    without a plan, and whatever the wait for Home Assistant to stop
    gave, short of an exception; [text] is the fetched registry with its
    duplicates merged. *)
Definition fix_ready (json_loads : string → outcome json)
    (decode : string → outcome FixMain.document)
    (encode : FixMain.document → string)
    (w : Workflow.world) (text : string) : Prop :=
  (∃ a, Workflow.confirm w = Returned a ∧ PyStr.lower a = "y") ∧
  (Workflow.backup_module w = true →
   ∃ path, (Backup.backup json_loads (Workflow.clock w)
              (Workflow.backup_scp w) (Workflow.backup_dir w)).1
           = Returned (Some path)) ∧
  (Workflow.stop_ha (Workflow.token w) (Workflow.stop_response w)).2
    = inr true ∧
  (∃ gone, (Workflow.wait_for_ha_stop 60 (Workflow.probe w)).2
           = inr gone) ∧
  ∃ raw registry entities,
    Workflow.fetched w = Some raw ∧ decode raw = Returned registry ∧
    Fix.fix_registry (FixMain.entities registry) = Some entities ∧
    text = encode
      {| FixMain.entities := entities;
         FixMain.envelope := FixMain.envelope registry |}.

(** *** Further sample data *)

Module Cases.

(** A transfer that succeeds and leaves the sample registry text. *)
Definition good_scp : Backup.scp_result :=
  {| Backup.returncode := 0; Backup.written := Some Samples.registry_text |}.

(** A plan none of whose new ids is itself an old id. *)
Definition plan : gmap string string :=
  {[ "1700000000001" := "kitchen_lights"; "1700000000002" := "lights" ]}.

(** A backup directory with a backup that parses, one that does not, and
    another file. *)
Definition listed_dir : Backup.localfs :=
  Some {[ "entity_registry.20260101_000000.json" := Samples.registry_text;
          "entity_registry.20260102_000000.json" := Samples.truncated_text;
          "notes.txt" := "keep me" ]}.

End Cases.
(** ** Facts about strings *)

Section string_facts.

Lemma substring_all (s : string) :
  String.substring 0 (String.length s) s = s.
Proof. induction s as [|c s IH]; simpl; [done | by rewrite IH]. Qed.

Lemma substring_split (s : string) (m : nat) :
  m ≤ String.length s →
  s = (String.substring 0 m s +:+
       String.substring m (String.length s - m) s)%string.
Proof.
  revert m. induction s as [|c s IH]; intros [|m] Hm; simpl in *.
  - done.
  - lia.
  - by rewrite substring_all.
  - change (String c s = String c (String.substring 0 m s +:+
      String.substring m (String.length s - m) s)%string).
    f_equal. apply IH. lia.
Qed.

Lemma endswith_drop_last (suf s : string) :
  PyStr.endswith suf s = true →
  s = (PyStr.drop_last (String.length suf) s +:+ suf)%string.
Proof.
  unfold PyStr.endswith, PyStr.drop_last.
  intros [Hlen Heq]%andb_prop.
  apply Nat.leb_le in Hlen. apply String.eqb_eq in Heq.
  pose proof (substring_split s (String.length s - String.length suf))
    as Hs.
  replace (String.length s - (String.length s - String.length suf))
    with (String.length suf) in Hs by lia.
  rewrite Heq in Hs. apply Hs. lia.
Qed.

Lemma endswith_drop_last_inj (suf s1 s2 : string) :
  PyStr.endswith suf s1 = true → PyStr.endswith suf s2 = true →
  PyStr.drop_last (String.length suf) s1 =
    PyStr.drop_last (String.length suf) s2 →
  s1 = s2.
Proof.
  intros H1%endswith_drop_last H2%endswith_drop_last Heq.
  rewrite H1, H2. by rewrite Heq.
Qed.

End string_facts.

(** ** Facts about insertion-ordered dictionaries *)

Section pydict_facts.
Context {V : Type}.
Implicit Types (d : pydict V) (k : string) (v : V).

Lemma dict_get_set k k' v d :
  dict_get k' (dict_set k v d) =
    if decide (k' = k) then Some v else dict_get k' d.
Proof.
  unfold dict_get. induction d as [|[k0 v0] d IH]; simpl.
  - by destruct (decide (k' = k)).
  - destruct (decide (k = k0)) as [->|Hk]; simpl.
    + by destruct (decide (k' = k0)).
    + destruct (decide (k' = k0)) as [->|Hk'].
      * by rewrite decide_False by congruence.
      * apply IH.
Qed.

Lemma dict_get_elem_of k v d : dict_get k d = Some v → (k, v) ∈ d.
Proof.
  unfold dict_get. induction d as [|[k0 v0] d IH]; simpl; [done|].
  case_decide; intros; simplify_eq; [left | right; auto].
Qed.

Lemma dict_get_is_Some k d : is_Some (dict_get k d) ↔ k ∈ d.*1.
Proof.
  unfold dict_get. induction d as [|[k0 v0] d IH]; simpl.
  - split; [by intros [? ?] | by intros ?%elem_of_nil].
  - case_decide; subst.
    + split; [left | eauto].
    + rewrite IH. split; [by right | by intros [?|?]%elem_of_cons].
Qed.

Lemma elem_of_dict_get k v d : NoDup d.*1 → (k, v) ∈ d → dict_get k d = Some v.
Proof.
  unfold dict_get. induction d as [|[k0 v0] d IH]; simpl.
  - by intros _ ?%elem_of_nil.
  - intros [Hk0 Hd]%NoDup_cons [Heq|Hin]%elem_of_cons.
    + simplify_eq. by rewrite decide_True.
    + case_decide; subst; [|by auto].
      exfalso. apply Hk0. apply list_elem_of_fmap. by exists (k0, v).
Qed.

Lemma dict_set_keys_NoDup k v d : NoDup d.*1 → NoDup (dict_set k v d).*1.
Proof.
  induction d as [|[k0 v0] d IH]; simpl.
  - intros _. apply NoDup_singleton.
  - intros [Hk0 Hd]%NoDup_cons. case_decide; simpl.
    + by apply NoDup_cons.
    + apply NoDup_cons. split; [|by auto].
      intros Hin. apply Hk0.
      apply dict_get_is_Some in Hin. apply dict_get_is_Some.
      rewrite dict_get_set in Hin. by rewrite decide_False in Hin.
Qed.

End pydict_facts.

(** ** The [automations] dictionary *)

Section automations_facts.
Import Fix.
Implicit Types (l : list entry) (e : entry) (k : string) (i : nat).

Lemma automations_snoc l e :
  automations (l ++ [e]) =
    if is_automation e
    then dict_set (entity_id e) (length l) (automations l)
    else automations l.
Proof.
  unfold automations, automations_from.
  rewrite imap_app, foldl_app. simpl. by rewrite Nat.add_0_r.
Qed.

Lemma automations_keys_NoDup l : NoDup (automations l).*1.
Proof.
  induction l as [|e l IH] using rev_ind; [apply NoDup_nil_2|].
  rewrite automations_snoc. destruct (is_automation e); [|done].
  by apply dict_set_keys_NoDup.
Qed.

(** A key of the dictionary is bound to an automation entry of that id. *)
Lemma automations_get_Some l k i :
  dict_get k (automations l) = Some i →
  ∃ e, l !! i = Some e ∧ entity_id e = k ∧ is_automation e = true.
Proof.
  induction l as [|e l IH] using rev_ind; [done|].
  rewrite automations_snoc.
  destruct (is_automation e) eqn:Hauto.
  - rewrite dict_get_set. case_decide as Hk.
    + intros [= <-]. exists e. split_and!; [|done..].
      by rewrite lookup_app_r, Nat.sub_diag by lia.
    + intros (e' & ? & ? & ?)%IH. exists e'.
      split_and!; [|done..]. by apply lookup_app_l_Some.
  - intros (e' & ? & ? & ?)%IH. exists e'.
    split_and!; [|done..]. by apply lookup_app_l_Some.
Qed.

(** Every automation entry has its id among the keys. *)
Lemma automations_get_is_Some l i e :
  l !! i = Some e → is_automation e = true →
  is_Some (dict_get (entity_id e) (automations l)).
Proof.
  induction l as [|e0 l IH] using rev_ind; [done|].
  intros Hi Hauto. rewrite automations_snoc.
  apply lookup_app_Some in Hi as [Hi|[Hlen Hi]].
  - destruct (is_automation e0); [|by auto].
    rewrite dict_get_set. case_decide; [done | by auto].
  - apply list_lookup_singleton_Some in Hi as [_ ->].
    rewrite Hauto, dict_get_set. by rewrite decide_True.
Qed.

Lemma automations_elem_of l k i :
  (k, i) ∈ automations l →
  ∃ e, l !! i = Some e ∧ entity_id e = k ∧ is_automation e = true.
Proof.
  intros Hin. apply automations_get_Some.
  apply elem_of_dict_get; [apply automations_keys_NoDup | done].
Qed.

(** A key is absent exactly when no automation entry carries it. *)
Lemma automations_get_None l k :
  (∀ e, e ∈ l → is_automation e = true → entity_id e ≠ k) →
  dict_get k (automations l) = None.
Proof.
  intros Hno. destruct (dict_get k (automations l)) as [i|] eqn:Hget; [|done].
  apply automations_get_Some in Hget as (e & Hi & Hk & Hauto).
  exfalso. eapply Hno; [|done..]. by eapply list_elem_of_lookup_2.
Qed.

Lemma automations_get_unique l i e :
  unique_automation_ids l →
  l !! i = Some e → is_automation e = true →
  dict_get (entity_id e) (automations l) = Some i.
Proof.
  intros Huniq Hi Hauto.
  destruct (automations_get_is_Some l i e Hi Hauto) as [j Hj].
  rewrite Hj. f_equal.
  apply automations_get_Some in Hj as (e' & Hj & Hid & _).
  symmetry. by eapply Huniq.
Qed.

Lemma automations_elem_of_unique l i e :
  unique_automation_ids l →
  l !! i = Some e → is_automation e = true →
  (entity_id e, i) ∈ automations l.
Proof.
  intros. apply dict_get_elem_of. by apply automations_get_unique.
Qed.

End automations_facts.

(** ** One iteration of the duplicate fix *)

Section step_facts.
Import Fix.
Implicit Types (st : store) (h : list entry) (autos : pydict nat).

Lemma py_eq_entry_entity_id (e1 e2 : entry) :
  py_eq_entry e1 e2 = true → entity_id e1 = entity_id e2.
Proof.
  unfold py_eq_entry. intros H.
  repeat (apply andb_prop in H as [H _]). by apply String.eqb_eq.
Qed.

(** What [entities.remove(entry)] does when it does not raise: it drops one
    reference, which points to an entry of the same id as [entry]. *)
Lemma list_remove_Some h a (l l' : list nat) :
  list_remove h a l = Some l' →
  ∃ l1 x l2, l = l1 ++ x :: l2 ∧ l' = l1 ++ l2 ∧
    (x = a ∨ ∃ ex ea, h !! x = Some ex ∧ h !! a = Some ea ∧
                      entity_id ex = entity_id ea).
Proof.
  revert l'. induction l as [|y l IH]; intros l'; simpl; [done|].
  destruct (matches h a y) eqn:Hm.
  - intros [= <-]. exists [], y, l. split_and!; [done..|].
    unfold matches in Hm. apply orb_prop in Hm as [Hm|Hm].
    + left. by apply Nat.eqb_eq.
    + right. destruct (h !! y) as [ey|], (h !! a) as [ea|]; try done.
      exists ey, ea. eauto using py_eq_entry_entity_id.
  - destruct (list_remove h a l) as [l0|] eqn:Hrm; simpl; [|done].
    intros [= <-].
    destruct (IH l0 eq_refl) as (l1 & x & l2 & -> & -> & Hx).
    exists (y :: l1), x, l2. by split_and!.
Qed.

(** [entities.remove(entry)] does not raise when the list holds [entry]. *)
Lemma list_remove_is_Some h a (l : list nat) :
  a ∈ l → is_Some (list_remove h a l).
Proof.
  induction l as [|y l IH]; simpl; [by intros ?%elem_of_nil|].
  intros [->|Hin]%elem_of_cons.
  - unfold matches. rewrite Nat.eqb_refl. simpl. eauto.
  - destruct (matches h a y); [eauto|].
    destruct (IH Hin) as [l' ->]. simpl. eauto.
Qed.

Lemma step_target_None autos st k a :
  target autos k = None → step autos st (k, a) = Some st.
Proof.
  unfold target, step.
  destruct (PyStr.endswith "_2" k); [|done]. by intros ->.
Qed.

(** The effect of an iteration that merges: the base entry [b] gets the
    unique id of [a], and one reference to an entry with the id of [a]
    leaves the list. *)
Lemma step_target_Some autos st k a b st' :
  target autos k = Some b → step autos st (k, a) = Some st' →
  ∃ ea eb l1 x l2,
    heap st !! a = Some ea ∧ heap st !! b = Some eb ∧
    heap st' = <[b := set_unique_id (unique_id ea) eb]> (heap st) ∧
    live st = l1 ++ x :: l2 ∧ live st' = l1 ++ l2 ∧
    (x = a ∨ ∃ ex ea', heap st' !! x = Some ex ∧ heap st' !! a = Some ea' ∧
                       entity_id ex = entity_id ea').
Proof.
  unfold target, step.
  destruct (PyStr.endswith "_2" k); [|done]. intros ->.
  destruct (heap st !! a) as [ea|]; simpl; [|done].
  destruct (heap st !! b) as [eb|]; simpl; [|done].
  destruct (list_remove _ a (live st)) as [l'|] eqn:Hrm; simpl; [|done].
  intros [= <-]. simpl.
  apply list_remove_Some in Hrm as (l1 & x & l2 & ? & ? & ?).
  by exists ea, eb, l1, x, l2.
Qed.

Lemma step_is_Some autos st k a :
  (∀ b, target autos k = Some b → is_Some (heap st !! b)) →
  is_Some (heap st !! a) → a ∈ live st →
  is_Some (step autos st (k, a)).
Proof.
  intros Hb [ea Ha] Hin.
  destruct (target autos k) as [b|] eqn:Ht.
  - destruct (Hb b eq_refl) as [eb Hbb].
    unfold target in Ht. unfold step.
    destruct (PyStr.endswith "_2" k); [|done]. rewrite Ht, Ha, Hbb. simpl.
    destruct (list_remove_is_Some
                (<[b:=set_unique_id (unique_id ea) eb]> (heap st)) a
                (live st) Hin) as [l' ->].
    simpl. eauto.
  - rewrite step_target_None by done. eauto.
Qed.

End step_facts.

(** ** The loop of the duplicate fix *)

Section loop_facts.
Import Fix.
Implicit Types (st : store) (autos : pydict nat) (reg : list entry).

(** Invariant rule for the loop. *)
Lemma loop_invariant autos (P : store → Prop) items st st' :
  (∀ s it s', it ∈ items → P s → step autos s it = Some s' → P s') →
  P st → loop autos items st = Some st' → P st'.
Proof.
  revert st. induction items as [|it items IH]; intros st Hstep HP; simpl.
  - by intros [= <-].
  - destruct (step autos st it) as [s1|] eqn:Hs1; simpl; [|done].
    apply IH.
    + intros s it' s' Hin. apply Hstep. by right.
    + eapply Hstep; [left | done..].
  Qed.

Lemma loop_app autos items1 items2 st :
  loop autos (items1 ++ items2) st =
    loop autos items1 st ≫= loop autos items2.
Proof.
  revert st. induction items1 as [|it items1 IH]; intros st; simpl; [done|].
  destruct (step autos st it); simpl; [apply IH | done].
Qed.

(** Only unique ids are ever written. *)
Lemma step_same_frame autos reg st it st' :
  Forall2 same_frame (heap st) reg → step autos st it = Some st' →
  Forall2 same_frame (heap st') reg.
Proof.
  intros Hfr Hstep. destruct it as [k a].
  destruct (target autos k) as [b|] eqn:Ht.
  - destruct (step_target_Some _ _ _ _ _ _ Ht Hstep)
      as (ea & eb & l1 & x & l2 & Ha & Hb & -> & _).
    destruct (Forall2_lookup_l _ _ _ _ _ Hfr Hb) as (e0 & He0 & Hid & Hf).
    rewrite <- (list_insert_id reg b e0) by done.
    apply Forall2_insert; [done|]. by split.
  - rewrite step_target_None in Hstep by done. by simplify_eq.
Qed.

Lemma loop_same_frame autos reg items st st' :
  Forall2 same_frame (heap st) reg → loop autos items st = Some st' →
  Forall2 same_frame (heap st') reg.
Proof.
  intros. eapply (loop_invariant autos (λ s, Forall2 same_frame (heap s) reg));
    [|done..].
  intros s it s' _. apply step_same_frame.
Qed.

(** The list of references only loses elements. *)
Lemma step_live_sublist autos st it st' :
  step autos st it = Some st' → live st' `sublist_of` live st.
Proof.
  intros Hstep. destruct it as [k a].
  destruct (target autos k) as [b|] eqn:Ht.
  - destruct (step_target_Some _ _ _ _ _ _ Ht Hstep)
      as (ea & eb & l1 & x & l2 & _ & _ & _ & -> & -> & _).
    apply sublist_app; [done|]. by apply sublist_cons.
  - rewrite step_target_None in Hstep by done. by simplify_eq.
Qed.

Lemma loop_live_sublist autos items st st' :
  loop autos items st = Some st' → live st' `sublist_of` live st.
Proof.
  intros. eapply (loop_invariant autos (λ s, live s `sublist_of` live st));
    [|done..].
  intros s it s' _ Hs Hstep. etrans; [|done]. by eapply step_live_sublist.
Qed.

(** An entry that no visited key targets is not written. *)
Lemma loop_heap_untouched autos items st st' j :
  (∀ k a, (k, a) ∈ items → target autos k ≠ Some j) →
  loop autos items st = Some st' → heap st' !! j = heap st !! j.
Proof.
  intros Hno. apply (loop_invariant autos (λ s, heap s !! j = heap st !! j));
    [|done].
  intros s [k a] s' Hin <- Hstep.
  destruct (target autos k) as [b|] eqn:Ht.
  - destruct (step_target_Some _ _ _ _ _ _ Ht Hstep)
      as (ea & eb & l1 & x & l2 & _ & _ & -> & _).
    apply list_lookup_insert_ne. intros ->. by eapply Hno.
  - rewrite step_target_None in Hstep by done. by simplify_eq.
Qed.

(** A reference stays in the list unless a merging iteration visits an
    entry of the same id. *)
Lemma loop_live_kept autos reg items st st' i ei :
  reg !! i = Some ei →
  (∀ k a e, (k, a) ∈ items → is_Some (target autos k) →
            reg !! a = Some e → entity_id e ≠ entity_id ei) →
  Forall2 same_frame (heap st) reg → i ∈ live st →
  loop autos items st = Some st' → i ∈ live st'.
Proof.
  intros Hi Hno Hfr Hin Hloop.
  enough (Forall2 same_frame (heap st') reg ∧ i ∈ live st') as [_ ?]; [done|].
  revert Hloop. apply (loop_invariant autos
    (λ s, Forall2 same_frame (heap s) reg ∧ i ∈ live s)); [|done].
  intros s [k a] s' Hit [Hfs His] Hstep.
  split; [by eapply step_same_frame|].
  destruct (target autos k) as [b|] eqn:Ht.
  - assert (Hfs' := step_same_frame _ _ _ _ _ Hfs Hstep).
    destruct (step_target_Some _ _ _ _ _ _ Ht Hstep)
      as (ea & eb & l1 & x & l2 & Ha & _ & _ & Hl & -> & Hx).
    rewrite Hl in His.
    apply elem_of_app in His as [?|[->|?]%elem_of_cons];
      [apply elem_of_app; by left | | apply elem_of_app; by right].
    exfalso.
    destruct (Forall2_lookup_l _ _ _ _ _ Hfs Ha) as (ea0 & Ha0 & _).
    apply (Hno k a ea0); [done..|].
    destruct Hx as [->|(ex & ea' & Hx & Ha' & Hid)]; [congruence|].
    destruct (Forall2_lookup_l _ _ _ _ _ Hfs' Hx) as (? & ? & Hidx & _).
    destruct (Forall2_lookup_l _ _ _ _ _ Hfs' Ha') as (? & ? & Hida & _).
    simplify_eq. congruence.
  - rewrite step_target_None in Hstep by done. by simplify_eq.
Qed.

End loop_facts.

(** ** The duplicate fix never raises *)

Section run_facts.
Import Fix.
Implicit Types (st : store) (autos : pydict nat) (reg : list entry).

Lemma same_frame_refl reg : Forall2 same_frame reg reg.
Proof. apply Forall_Forall2_diag, Forall_forall. by intros e _. Qed.

Lemma loop_is_Some autos reg items st :
  NoDup items.*1 →
  (∀ k a, (k, a) ∈ items →
          a ∈ live st ∧ ∃ e, reg !! a = Some e ∧ entity_id e = k) →
  (∀ k b, target autos k = Some b → b < length reg) →
  Forall2 same_frame (heap st) reg →
  is_Some (loop autos items st).
Proof.
  intros Hnd Hitems Hb. revert st Hnd Hitems.
  induction items as [|[k a] items IH]; intros st Hnd Hitems Hfr;
    [by simpl; eauto|].
  change (is_Some (step autos st (k, a) ≫= loop autos items)).
  apply NoDup_cons in Hnd as [Hk Hnd].
  destruct (Hitems k a) as (Ha & ea & Hrega & Hka); [left|].
  assert (Hlen := Forall2_length _ _ _ Hfr).
  destruct (step_is_Some autos st k a) as [s1 Hs1].
  { intros b Hbt%Hb. apply lookup_lt_is_Some. lia. }
  { apply lookup_lt_is_Some. rewrite Hlen. by eapply lookup_lt_Some. }
  { done. }
  rewrite Hs1. simpl.
  assert (Hfr1 := step_same_frame _ _ _ _ _ Hfr Hs1).
  apply IH; [done| |done].
  intros k' a' Hin'. destruct (Hitems k' a') as (Ha' & e' & Hrega' & Hka');
    [by right|].
  split; [|by eauto].
  destruct (target autos k) as [b|] eqn:Ht.
  - destruct (step_target_Some _ _ _ _ _ _ Ht Hs1)
      as (? & eb & l1 & x & l2 & _ & _ & _ & Hl & -> & Hx).
    rewrite Hl in Ha'.
    apply elem_of_app in Ha' as [?|[->|?]%elem_of_cons];
      [apply elem_of_app; by left | | apply elem_of_app; by right].
    exfalso. apply Hk. apply list_elem_of_fmap. exists (k', x).
    split; [|done]. simpl.
    destruct Hx as [->|(ex & ea' & Hx & Haa & Hid)]; [congruence|].
    destruct (Forall2_lookup_l _ _ _ _ _ Hfr1 Hx) as (? & ? & Hidx & _).
    destruct (Forall2_lookup_l _ _ _ _ _ Hfr1 Haa) as (? & ? & Hida & _).
    simplify_eq. congruence.
  - rewrite step_target_None in Hs1 by done. by simplify_eq.
Qed.

Lemma target_automations_Some reg k b :
  target (automations reg) k = Some b →
  ∃ eb, reg !! b = Some eb ∧ is_automation eb = true ∧
        PyStr.endswith "_2" k = true ∧ entity_id eb = PyStr.drop_last 2 k.
Proof.
  unfold target. destruct (PyStr.endswith "_2" k); [|done].
  intros (eb & ? & ? & ?)%automations_get_Some. by exists eb.
Qed.

(** [list.remove] always finds the entry: the loop runs to its end. *)
Lemma run_is_Some reg : is_Some (run reg).
Proof.
  unfold run. apply (loop_is_Some _ reg).
  - apply automations_keys_NoDup.
  - intros k a (e & Ha & Hk & _)%automations_elem_of. split; [|by eauto].
    simpl. apply elem_of_seq. apply lookup_lt_Some in Ha. lia.
  - intros k b (eb & Hb & _)%target_automations_Some.
    by eapply lookup_lt_Some.
  - apply same_frame_refl.
Qed.

Lemma run_same_frame reg st :
  run reg = Some st → Forall2 same_frame (heap st) reg.
Proof. apply loop_same_frame, same_frame_refl. Qed.

Lemma run_live_sublist reg st :
  run reg = Some st → live st `sublist_of` seq 0 (length reg).
Proof. apply loop_live_sublist. Qed.

(** Reading a list through all of its indices gives the list back. *)
Lemma omap_lookup_seq {A} (l : list A) :
  omap (λ i, l !! i) (seq 0 (length l)) = l.
Proof.
  induction l as [|x l IH] using rev_ind; [done|].
  rewrite length_app, seq_app, omap_app. simpl.
  rewrite lookup_app_r, Nat.sub_diag by lia. simpl. f_equal.
  rewrite <- IH at 2. apply list_omap_ext.
  apply Forall_Forall2_diag, Forall_forall.
  intros i [_ Hi]%elem_of_seq. apply lookup_app_l. lia.
Qed.

Lemma sublist_omap {A B} (f : A → option B) (l1 l2 : list A) :
  l1 `sublist_of` l2 → omap f l1 `sublist_of` omap f l2.
Proof.
  induction 1 as [|x l1 l2 _ IH|x l1 l2 _ IH]; simpl.
  - done.
  - destruct (f x); [by apply sublist_skip | done].
  - destruct (f x); [by apply sublist_cons | done].
Qed.

End run_facts.

(** ** What the duplicate fix does to the registry *)

Section fix_facts.
Import Fix.
Implicit Types (st : store) (reg : list entry) (e d b : entry).

(** The entry a visited key targets has a [_2] duplicate in the registry. *)
Lemma target_has_duplicate reg k a j e :
  (k, a) ∈ automations reg → target (automations reg) k = Some j →
  reg !! j = Some e → has_duplicate reg e.
Proof.
  intros (d & Ha & Hk & Hauto)%automations_elem_of
         (eb & Hj & Hautob & Hends & Hbase)%target_automations_Some Hje.
  simplify_eq. exists d. split; [by eapply list_elem_of_lookup_2|].
  unfold duplicate_of, is_suffixed, base_id. by rewrite Hauto, Hends.
Qed.

(** An entry whose id is a key on which the loop merges is a [_2] entry
    with an original in the registry. *)
Lemma merging_key_has_base reg k a e :
  (k, a) ∈ automations reg → is_Some (target (automations reg) k) →
  entity_id e = k → is_suffixed e = true ∧ has_base reg e.
Proof.
  intros (d & Ha & Hk & Hauto)%automations_elem_of [j Hj] He.
  apply target_automations_Some in Hj as (eb & Hj & Hautob & Hends & Hbase).
  assert (is_suffixed e = true) as Hsuf.
  { unfold is_suffixed, is_automation in *. by rewrite He, <- Hk, Hauto, Hk. }
  split; [done|]. exists eb. split; [by eapply list_elem_of_lookup_2|].
  unfold duplicate_of, base_id. by rewrite He.
Qed.

(** An entry without a [_2] duplicate is never written. *)
Lemma run_heap_untouched reg st j e :
  run reg = Some st → reg !! j = Some e → ¬ has_duplicate reg e →
  heap st !! j = Some e.
Proof.
  intros Hrun Hj Hnodup. rewrite <- Hj.
  apply (loop_heap_untouched _ _ _ _ j) in Hrun; [done|].
  intros k a Hin Ht. apply Hnodup. by eapply target_has_duplicate.
Qed.

(** An entry that is not a [_2] entry with an original stays in the list. *)
Lemma run_live_kept reg st i e :
  run reg = Some st → reg !! i = Some e →
  ¬ (is_suffixed e = true ∧ has_base reg e) → i ∈ live st.
Proof.
  intros Hrun Hi Hkeep.
  eapply (loop_live_kept _ reg) in Hrun;
    [done | done | | apply same_frame_refl |].
  - intros k a e0 Hin Ht Ha Hid. apply Hkeep.
    apply (merging_key_has_base reg k a); [done..|].
    apply automations_elem_of in Hin as (? & ? & ? & _). congruence.
  - simpl. apply elem_of_seq. apply lookup_lt_Some in Hi. lia.
Qed.

(** Entry by entry, the list read through the final heap relates to the
    list read through the registry. *)
Lemma omap_heap_Forall2 (R : entry → entry → Prop) (h reg : list entry)
    (l : list nat) :
  length h = length reg →
  (∀ i e' e, h !! i = Some e' → reg !! i = Some e → R e' e) →
  Forall2 R (omap (λ a, h !! a) l) (omap (λ a, reg !! a) l).
Proof.
  intros Hlen HR. induction l as [|x l IH]; simpl; [constructor|].
  destruct (h !! x) as [e'|] eqn:Hx, (reg !! x) as [e|] eqn:Hrx.
  - constructor; [by eapply HR | done].
  - apply lookup_lt_Some in Hx. apply lookup_ge_None in Hrx. lia.
  - apply lookup_lt_Some in Hrx. apply lookup_ge_None in Hx. lia.
  - done.
Qed.

End fix_facts.

(** ** The claims about the duplicate fix *)

(** C2. The duplicate fix never raises, and the list it leaves is a
    sub-list [kept] of the registry (same order) read through the heap:
    every entry it leaves has the entity id and all the other fields of the
    entry it comes from, in particular [area_id], [icon] and [labels]; only
    the unique id may differ, and only for an entry that has a [_2]
    duplicate.  Every entry that is not a [_2] entry with an original is
    kept. *)
Theorem fix_preserves_metadata (reg : list entry) :
  ∃ out kept,
    Fix.fix_registry reg = Some out ∧
    kept `sublist_of` reg ∧
    Forall2 (λ e' e,
      same_frame e' e ∧
      entry_get "area_id" e' = entry_get "area_id" e ∧
      entry_get "icon" e' = entry_get "icon" e ∧
      entry_get "labels" e' = entry_get "labels" e ∧
      (¬ has_duplicate reg e → e' = e)) out kept ∧
    (∀ e, e ∈ reg → ¬ (is_suffixed e = true ∧ has_base reg e) → e ∈ kept).
Proof.
  destruct (run_is_Some reg) as [st Hrun].
  exists (Fix.contents st), (omap (λ a, reg !! a) (Fix.live st)).
  assert (Hfr := run_same_frame _ _ Hrun).
  split_and!.
  - unfold Fix.fix_registry. by rewrite Hrun.
  - pose proof (sublist_omap (λ a, reg !! a) _ _
                  (run_live_sublist _ _ Hrun)) as Hsub.
    by rewrite omap_lookup_seq in Hsub.
  - apply omap_heap_Forall2; [by eapply Forall2_length|].
    intros i e' e Hi' Hi.
    destruct (Forall2_lookup_l _ _ _ _ _ Hfr Hi') as (e0 & ? & Hid & Hf).
    simplify_eq. unfold entry_get. rewrite Hf. split_and!; try done.
    intros Hnd. pose proof (run_heap_untouched _ _ _ _ Hrun Hi Hnd).
    congruence.
  - intros e [i Hi]%list_elem_of_lookup_1 Hkeep.
    apply list_elem_of_omap. exists i. split; [|done].
    by eapply run_live_kept.
Qed.

Lemma fix_preserves_metadata_witness :
  ∃ out, Fix.fix_registry Samples.home = Some out ∧
         Samples.sensor_2 ∈ out ∧
         ∃ e, e ∈ out ∧ entity_id e = "automation.kitchen" ∧
              entry_get "area_id" e = JStr "kitchen".
Proof.
  destruct (fix_preserves_metadata Samples.home)
    as (out & kept & Hout & Hsub & Hall & Hkept).
  exists out. split; [done|].
  assert (Hk : Samples.kitchen ∈ kept).
  { apply Hkept; [left | by intros [? _]]. }
  assert (Hs : Samples.sensor_2 ∈ kept).
  { apply Hkept; [do 2 right; left | by intros [? _]]. }
  split.
  - apply list_elem_of_lookup_1 in Hs as [i Hi].
    destruct (Forall2_lookup_r _ _ _ _ _ Hall Hi)
      as (e' & He' & _ & _ & _ & _ & Hsame).
    rewrite Hsame in He'; [by eapply list_elem_of_lookup_2|].
    intros (d & _ & Hsuf & Hauto & _). done.
  - apply list_elem_of_lookup_1 in Hk as [i Hi].
    destruct (Forall2_lookup_r _ _ _ _ _ Hall Hi)
      as (e' & He' & [Hid _] & Harea & _).
    exists e'. split_and!; [by eapply list_elem_of_lookup_2|done|].
    by rewrite Harea.
Defined.

Section merge_facts.
Import Fix.
Implicit Types (st : store) (reg : list entry) (e d b : entry).

(** The run of the loop, cut at the iteration that visits a given key. *)
Lemma run_split reg st k i :
  (k, i) ∈ automations reg → run reg = Some st →
  ∃ pre post s1 s2,
    automations reg = pre ++ (k, i) :: post ∧
    loop (automations reg) pre (init reg) = Some s1 ∧
    step (automations reg) s1 (k, i) = Some s2 ∧
    loop (automations reg) post s2 = Some st.
Proof.
  intros (pre & post & Hsplit)%list_elem_of_split Hrun.
  assert (loop (automations reg) (pre ++ (k, i) :: post) (init reg) = Some st)
    as Hloop by (by rewrite <- Hsplit).
  rewrite loop_app in Hloop.
  destruct (loop (automations reg) pre (init reg)) as [s1|] eqn:Hpre;
    [|done].
  change (step (automations reg) s1 (k, i) ≫= loop (automations reg) post
          = Some st) in Hloop.
  destruct (step (automations reg) s1 (k, i)) as [s2|] eqn:Hstep; [|done].
  by exists pre, post, s1, s2.
Qed.

(** The key of a [_2] entry with an original targets that original. *)
Lemma duplicate_target reg i j d b :
  unique_automation_ids reg →
  reg !! i = Some d → reg !! j = Some b → duplicate_of d b →
  (entity_id d, i) ∈ automations reg ∧
  target (automations reg) (entity_id d) = Some j.
Proof.
  intros Huniq Hi Hj (Hsuf & Hb & Hbase).
  apply andb_prop in Hsuf as [Hd Hends]. split.
  - by apply automations_elem_of_unique.
  - unfold target. rewrite Hends. unfold base_id in Hbase. rewrite Hbase.
    by apply automations_get_unique.
Qed.

(** With distinct automation ids, a [_2] entry with an original is removed
    from the list. *)
Lemma run_removed reg st i j d b :
  unique_automation_ids reg → run reg = Some st →
  reg !! i = Some d → reg !! j = Some b → duplicate_of d b →
  i ∉ live st.
Proof.
  intros Huniq Hrun Hi Hj Hdup.
  destruct (duplicate_target _ _ _ _ _ Huniq Hi Hj Hdup) as [Hin Ht].
  destruct (run_split _ _ _ _ Hin Hrun)
    as (pre & post & s1 & s2 & _ & Hpre & Hstep & Hpost).
  assert (Hfr2 : Forall2 same_frame (heap s2) reg).
  { eapply step_same_frame; [|done].
    eapply loop_same_frame; [|done]. apply same_frame_refl. }
  assert (Hnd : NoDup (live s1)).
  { apply (sublist_NoDup _ (seq 0 (length reg))); [apply NoDup_seq|].
    apply (loop_live_sublist _ _ _ _ Hpre). }
  destruct (step_target_Some _ _ _ _ _ _ Ht Hstep)
    as (ea & eb & l1 & x & l2 & _ & _ & _ & Hl & Hl' & Hx).
  assert (x = i) as ->.
  { destruct Hx as [->|(ex & ea' & Hx & Ha' & Hid)]; [done|].
    destruct (Forall2_lookup_l _ _ _ _ _ Hfr2 Hx) as (ex0 & ? & Hidx & _).
    destruct (Forall2_lookup_l _ _ _ _ _ Hfr2 Ha') as (? & ? & Hida & _).
    simplify_eq. destruct Hdup as (Hsuf & _).
    apply andb_prop in Hsuf as [Hd _].
    symmetry. eapply (Huniq i x d ex0); [done..|congruence]. }
  intros Hlive.
  apply (elem_of_sublist _ (live s2)) in Hlive;
    [|by eapply loop_live_sublist].
  rewrite Hl' in Hlive. rewrite Hl in Hnd.
  apply NoDup_app in Hnd as (_ & Hl1 & [Hl2 _]%NoDup_cons).
  apply elem_of_app in Hlive as [Hlive|Hlive]; [|done].
  apply (Hl1 i Hlive). left.
Qed.

(** With distinct automation ids, the original of a [_2] entry that has no
    [_2] duplicate of its own ends with the unique id of that entry. *)
Lemma run_rewritten reg st i j d b :
  unique_automation_ids reg → run reg = Some st →
  reg !! i = Some d → reg !! j = Some b → duplicate_of d b →
  ¬ has_duplicate reg d →
  heap st !! j = Some (set_unique_id (unique_id d) b).
Proof.
  intros Huniq Hrun Hi Hj Hdup Hleaf.
  destruct (duplicate_target _ _ _ _ _ Huniq Hi Hj Hdup) as [Hin Ht].
  destruct (run_split _ _ _ _ Hin Hrun)
    as (pre & post & s1 & s2 & Hsplit & Hpre & Hstep & Hpost).
  assert (Hfr1 : Forall2 same_frame (heap s1) reg).
  { eapply loop_same_frame; [|done]. apply same_frame_refl. }
  assert (Hkeys := automations_keys_NoDup reg).
  rewrite Hsplit, fmap_app, fmap_cons in Hkeys.
  apply NoDup_app in Hkeys as (_ & _ & [Hk _]%NoDup_cons).
  (* [d] has not been written before it is visited *)
  assert (heap s1 !! i = Some d) as Hd1.
  { rewrite <- Hi. eapply (loop_heap_untouched _ pre (init reg)); [|done].
    intros k' a' Hin' Ht'. apply Hleaf.
    apply (target_has_duplicate reg k' a' i); [|done..].
    rewrite Hsplit. apply elem_of_app. by left. }
  destruct (step_target_Some _ _ _ _ _ _ Ht Hstep)
    as (ea & eb & l1 & x & l2 & Ha & Hb & Hh & _).
  destruct (Forall2_lookup_l _ _ _ _ _ Hfr1 Hb) as (b0 & ? & Hidb & Hfb).
  simplify_eq.
  (* no later key targets [b] *)
  assert (heap st !! j = heap s2 !! j) as ->.
  2: { rewrite Hh, list_lookup_insert_eq by by eapply lookup_lt_Some.
       f_equal. unfold set_unique_id. by rewrite Hidb, Hfb. }
  eapply loop_heap_untouched; [|done].
  intros k' a' Hin' Ht'. apply Hk.
  apply list_elem_of_fmap. exists (k', a'). split; [|done]. simpl.
  apply target_automations_Some in Ht as (? & ? & _ & Hends & Hbase).
  apply target_automations_Some in Ht' as (? & ? & _ & Hends' & Hbase').
  simplify_eq.
  apply (endswith_drop_last_inj "_2"); [done..|]. simpl. congruence.
Qed.

End merge_facts.

(** C1, as amended.  In a registry whose automation ids are pairwise
    distinct, the duplicate fix returns a list in which:
    - no entry carries the id of a [_2] automation entry [d] whose original
      [b] is in the registry ([d] has been removed);
    - the original [b] appears with the unique id of [d] and is otherwise
      as it was, provided [d] has no [_2] duplicate of its own and [b] is
      not itself a removed duplicate;
    - a [_2] automation entry without original is still there, and it is
      unchanged provided it has no [_2] duplicate of its own. *)
Theorem fix_merges_duplicates (reg : list entry) :
  unique_automation_ids reg →
  ∃ out, Fix.fix_registry reg = Some out ∧
    (∀ d b, d ∈ reg → b ∈ reg → duplicate_of d b →
            ∀ e, e ∈ out → entity_id e ≠ entity_id d) ∧
    (∀ d b, d ∈ reg → b ∈ reg → duplicate_of d b →
            ¬ has_duplicate reg d →
            ¬ (is_suffixed b = true ∧ has_base reg b) →
            set_unique_id (unique_id d) b ∈ out) ∧
    (∀ d, d ∈ reg → is_suffixed d = true → ¬ has_base reg d →
          (∃ e, e ∈ out ∧ same_frame e d) ∧
          (¬ has_duplicate reg d → d ∈ out)).
Proof.
  intros Huniq. destruct (run_is_Some reg) as [st Hrun].
  exists (Fix.contents st).
  assert (Hfr := run_same_frame _ _ Hrun).
  split_and!.
  - unfold Fix.fix_registry. by rewrite Hrun.
  - intros d b [i Hi]%list_elem_of_lookup_1 [j Hj]%list_elem_of_lookup_1
           Hdup e (x & Hx & Hxe)%list_elem_of_omap Hid.
    destruct (Forall2_lookup_l _ _ _ _ _ Hfr Hxe) as (e0 & Hx0 & Hid0 & _).
    assert (i = x) as ->.
    { destruct Hdup as (Hsuf & _). apply andb_prop in Hsuf as [Hd _].
      eapply (Huniq i x d e0); [done..|congruence]. }
    by apply (run_removed _ _ _ _ _ _ Huniq Hrun Hi Hj Hdup).
  - intros d b [i Hi]%list_elem_of_lookup_1 [j Hj]%list_elem_of_lookup_1
           Hdup Hleaf Hkept.
    apply list_elem_of_omap. exists j. split.
    + by eapply run_live_kept.
    + by eapply run_rewritten.
  - intros d [i Hi]%list_elem_of_lookup_1 Hsuf Hnobase.
    assert (i ∈ Fix.live st) as Hlive.
    { eapply run_live_kept; [done..|]. by intros [_ ?]. }
    split.
    + destruct (Forall2_lookup_r _ _ _ _ _ Hfr Hi) as (e & He & Hsame).
      exists e. split; [|done]. apply list_elem_of_omap. by exists i.
    + intros Hleaf. apply list_elem_of_omap. exists i. split; [done|].
      by eapply run_heap_untouched.
Qed.

Lemma home_unique_ids : unique_automation_ids Samples.home.
Proof.
  intros i j ei ej Hi Hj Hauto Hid.
  destruct i as [|[|[|[|i]]]], j as [|[|[|[|j]]]];
    simpl in Hi, Hj; simplify_eq; done.
Qed.

Lemma fix_merges_duplicates_witness :
  unique_automation_ids Samples.home ∧
  ∃ out, Fix.fix_registry Samples.home = Some out ∧
    (∀ e, e ∈ out → entity_id e ≠ "automation.kitchen_2") ∧
    set_unique_id "kitchen_lights" Samples.kitchen ∈ out ∧
    Samples.porch_2 ∈ out.
Proof.
  split; [exact home_unique_ids|].
  destruct (fix_merges_duplicates Samples.home home_unique_ids)
    as (out & Hout & Hremoved & Hrewritten & Hstays).
  assert (Hdup : duplicate_of Samples.kitchen_2 Samples.kitchen)
    by (by split_and!).
  assert (Hleaf : ∀ d, base_id d = "automation.kitchen_2" →
                       d ∉ Samples.home).
  { intros d Hd Hin. unfold Samples.home in Hin.
    repeat (apply elem_of_cons in Hin as [->|Hin]; [by vm_compute in Hd|]).
    by apply elem_of_nil in Hin. }
  exists out. split_and!.
  - done.
  - apply (Hremoved Samples.kitchen_2 Samples.kitchen); [| |done].
    + unfold Samples.home. do 1 right. left.
    + left.
  - apply (Hrewritten Samples.kitchen_2 Samples.kitchen); [| |done| |].
    + right. left.
    + left.
    + intros (d & Hin & _ & _ & Hbase). by apply (Hleaf d).
    + by intros [? _].
  - apply (Hstays Samples.porch_2).
    + do 3 right. left.
    + done.
    + intros (b & Hin & _ & _ & Hbase). unfold Samples.home in Hin.
      repeat (apply elem_of_cons in Hin as [->|Hin];
              [by vm_compute in Hbase|]).
      by apply elem_of_nil in Hin.
    + intros (d & Hin & _ & _ & Hbase). unfold Samples.home in Hin.
      repeat (apply elem_of_cons in Hin as [->|Hin];
              [by vm_compute in Hbase|]).
      by apply elem_of_nil in Hin.
Defined.

(** C1, as stated, fails on a chain: [automation.hall_2] has no original
    in the registry (its ids are pairwise distinct), yet it does not come
    out unchanged, because it is the original of [automation.hall_2_2] and
    takes its unique id. *)
Lemma fix_rewrites_suffixed_without_base :
  unique_automation_ids Samples.chain ∧
  Samples.hall_2 ∈ Samples.chain ∧
  is_suffixed Samples.hall_2 = true ∧
  ¬ has_base Samples.chain Samples.hall_2 ∧
  ∃ out, Fix.fix_registry Samples.chain = Some out ∧
         (Samples.hall_2 ∉ out) ∧
         out = [set_unique_id "hall_new" Samples.hall_2].
Proof.
  split_and!.
  - intros i j ei ej Hi Hj Hauto Hid.
    destruct i as [|[|i]], j as [|[|j]]; simpl in Hi, Hj; simplify_eq; done.
  - left.
  - done.
  - intros (b & Hin & _ & _ & Hbase). unfold Samples.chain in Hin.
    repeat (apply elem_of_cons in Hin as [->|Hin]; [by vm_compute in Hbase|]).
    by apply elem_of_nil in Hin.
  - eexists. split; [by vm_compute|]. split; [|done].
    intros [=]%list_elem_of_singleton.
Qed.

(** ** [str.replace], deleting every occurrence *)

Section replace_facts.

Lemma prefix_split (p s : string) :
  String.prefix p s = true →
  s = (p +:+ PyStr.drop_first (String.length p) s)%string.
Proof.
  revert s. induction p as [|c p IH]; intros [|c' s]; simpl; try done.
  destruct (Ascii.ascii_dec c c') as [->|]; [|done].
  intros Hp.
  change (String c' s = String c'
            (p +:+ PyStr.drop_first (String.length p) s)%string).
  f_equal. by apply IH.
Qed.






End replace_facts.

(** ** Entries that are not automations *)

Section bystander_facts.
Import Fix.
Implicit Types (st : store) (reg h : list entry).

Lemma is_automation_entity_id (e e' : entry) :
  entity_id e = entity_id e' → is_automation e = is_automation e'.
Proof. unfold is_automation. by intros ->. Qed.

(** Writing an automation entry does not show among the other entries. *)
Lemma filter_omap_insert h b (eb eb' : entry) (l : list nat) :
  h !! b = Some eb → is_automation eb = true → is_automation eb' = true →
  filter (λ e, is_automation e = false) (omap (λ a, <[b:=eb']> h !! a) l) =
  filter (λ e, is_automation e = false) (omap (λ a, h !! a) l).
Proof.
  intros Hb Heb Heb'. induction l as [|y l IH]; [done|].
  cbn [omap list_omap].
  destruct (decide (y = b)) as [->|Hy].
  - rewrite list_lookup_insert_eq, Hb by by eapply lookup_lt_Some.
    rewrite !filter_cons_False by congruence. done.
  - rewrite list_lookup_insert_ne by done.
    destruct (h !! y) as [ey|]; [|done].
    rewrite !filter_cons. by rewrite IH.
Qed.

(** An iteration leaves the entries that are not automations as they are,
    in the same order. *)
Lemma step_bystanders reg st k a st' :
  (k, a) ∈ automations reg →
  Forall2 same_frame (heap st) reg →
  step (automations reg) st (k, a) = Some st' →
  filter (λ e, is_automation e = false) (contents st') =
  filter (λ e, is_automation e = false) (contents st).
Proof.
  intros Hin Hfr Hstep.
  destruct (target (automations reg) k) as [b|] eqn:Ht.
  2: { rewrite step_target_None in Hstep by done. by simplify_eq. }
  assert (Hfr' := step_same_frame _ _ _ _ _ Hfr Hstep).
  destruct (step_target_Some _ _ _ _ _ _ Ht Hstep)
    as (ea & eb & l1 & x & l2 & Ha & Hb & Hh & Hl & Hl' & Hx).
  apply automations_elem_of in Hin as (ra & Hra & Hka & Hauto).
  apply target_automations_Some in Ht as (rb & Hrb & Hautob & _).
  destruct (Forall2_lookup_l _ _ _ _ _ Hfr Hb) as (? & ? & Hidb & _).
  simplify_eq.
  unfold contents. rewrite Hl', Hh.
  rewrite (filter_omap_insert _ _ eb); [|done| |].
  2: by rewrite (is_automation_entity_id eb rb).
  2: { rewrite (is_automation_entity_id _ rb); [done|]. by simpl. }
  rewrite Hl, !omap_app, !filter_app. f_equal. simpl.
  destruct (heap st !! x) as [ex|] eqn:Hhx; [|done].
  rewrite filter_cons_False; [done|].
  assert (entity_id ex = entity_id ra) as Hid; [|
    rewrite (is_automation_entity_id ex ra) by done; congruence].
  destruct (Forall2_lookup_l _ _ _ _ _ Hfr Hhx) as (rx & Hrx & Hidx & _).
  destruct (Forall2_lookup_l _ _ _ _ _ Hfr Ha) as (? & ? & Hida & _).
  destruct Hx as [->|(ex' & ea' & Hx' & Ha' & Hid')]; [by simplify_eq|].
  destruct (Forall2_lookup_l _ _ _ _ _ Hfr' Hx') as (? & ? & Hidx' & _).
  destruct (Forall2_lookup_l _ _ _ _ _ Hfr' Ha') as (? & ? & Hida' & _).
  simplify_eq. congruence.
Qed.

Lemma run_bystanders reg st :
  run reg = Some st →
  filter (λ e, is_automation e = false) (contents st) =
  filter (λ e, is_automation e = false) reg.
Proof.
  intros Hrun.
  enough (Forall2 same_frame (heap st) reg ∧
          filter (λ e, is_automation e = false) (contents st) =
          filter (λ e, is_automation e = false) reg) as [_ ?]; [done|].
  revert Hrun. apply (loop_invariant (automations reg)
    (λ s, Forall2 same_frame (heap s) reg ∧
          filter (λ e, is_automation e = false) (contents s) =
          filter (λ e, is_automation e = false) reg)).
  - intros s [k a] s' Hin [Hfr Heq] Hstep. split.
    + by eapply step_same_frame.
    + rewrite <- Heq. by eapply step_bystanders.
  - split; [apply same_frame_refl|].
    unfold contents, init. simpl. by rewrite omap_lookup_seq.
Qed.

End bystander_facts.

(** ** The unique-id rewrite of [execute] *)

Section execute_facts.
Import Migrate.

Lemma cmd_execute_update_spec (id_mapping : gmap string string)
    (reg : list entry) (n : nat) :
  ∃ out n', cmd_execute_update id_mapping reg n = (out, n') ∧
    Forall2 (λ e' e,
      same_frame e' e ∧
      match id_mapping !! unique_id e with
      | Some new => unique_id e' = new
      | None => e' = e
      end) out reg ∧
    n' = n + length (filter (λ e, is_Some (id_mapping !! unique_id e)) reg).
Proof.
  revert n. induction reg as [|e reg IH]; intros n; simpl.
  - exists [], n. split_and!; [done|constructor|lia].
  - destruct (id_mapping !! unique_id e) as [new|] eqn:Hm.
    + destruct (IH (S n)) as (out & n' & -> & Hall & ->).
      eexists _, _. split_and!; [done| |].
      * constructor; [|done]. rewrite Hm. by split.
      * rewrite filter_cons_True by (by rewrite Hm). simpl. lia.
    + destruct (IH n) as (out & n' & -> & Hall & ->).
      eexists _, _. split_and!; [done| |].
      * constructor; [|done]. rewrite Hm. by split.
      * rewrite filter_cons_False; [done|]. rewrite Hm. by intros [? ?].
Qed.

End execute_facts.

(** C3, as amended.  The duplicate fix modifies or deletes only entries
    whose entity id starts with [automation.]: the other entries come out
    unchanged and in the same order.  The rewrite of [execute] does not
    look at entity ids: it keeps every entry, changes nothing but unique
    ids, and rewrites exactly the entries whose unique id is a key of the
    mapping, leaving the others unchanged. *)
Theorem rewrites_select_entries (reg : list entry)
    (id_mapping : gmap string string) :
  (∃ out, Fix.fix_registry reg = Some out ∧
     filter (λ e, is_automation e = false) out =
     filter (λ e, is_automation e = false) reg) ∧
  (∃ out n, Migrate.cmd_execute_update id_mapping reg 0 = (out, n) ∧
     Forall2 (λ e' e,
       same_frame e' e ∧
       match id_mapping !! unique_id e with
       | Some new => unique_id e' = new
       | None => e' = e
       end) out reg ∧
     n = length (filter (λ e, is_Some (id_mapping !! unique_id e)) reg)).
Proof.
  split.
  - destruct (run_is_Some reg) as [st Hrun]. exists (Fix.contents st).
    split; [|by apply run_bystanders].
    unfold Fix.fix_registry. by rewrite Hrun.
  - destruct (cmd_execute_update_spec id_mapping reg 0)
      as (out & n & Hex & Hall & Hn).
    by exists out, n.
Qed.

(** C3, as stated, fails for [execute]: a scene, whose entity id does not
    start with [automation.], has its unique id rewritten because that id
    is a key of the mapping. *)
Lemma execute_rewrites_a_scene :
  is_automation Samples.scene = false ∧
  Migrate.cmd_execute_update Samples.plan [Samples.scene] 0 =
    ([set_unique_id "kitchen_lights" Samples.scene], 1) ∧
  set_unique_id "kitchen_lights" Samples.scene ≠ Samples.scene.
Proof. split_and!; [done | by vm_compute | by intros [=]]. Qed.

(** ** The plan that [generate] proposes *)

Section generate_facts.
Import Migrate.
Variable isdigit : string → bool.









End generate_facts.



(** ** The [stats] command *)

Section stats_facts.
Import Stats.

(** The guard makes the division total. *)
Lemma coverage_returns (count total : Z) :
  ∃ p, coverage count total = Returned p ∧
       (total = 0%Z → p = 0%Z) ∧
       (total ≠ 0%Z → p = (100 * count / total)%Z).
Proof.
  unfold coverage, py_floordiv.
  destruct (total =? 0)%Z eqn:Ht; simpl.
  - apply Z.eqb_eq in Ht. exists 0%Z. by split_and!.
  - apply Z.eqb_neq in Ht. eexists. by split_and!.
Qed.

End stats_facts.

(** C9.  [cmd_stats] never raises [ZeroDivisionError]: it returns a report
    for every registry, and when the registry has no automation entry the
    total and the three percentages are 0. *)
Theorem stats_never_divides_by_zero (entities : list entry) :
  ∃ r, Stats.cmd_stats entities = Returned r ∧
    (filter (λ e, is_automation e = true) entities = [] →
     Stats.total r = 0%Z ∧ Stats.pct_area r = 0%Z ∧
     Stats.pct_icon r = 0%Z ∧ Stats.pct_labels r = 0%Z).
Proof.
  unfold Stats.cmd_stats.
  set (autos := filter (λ e, is_automation e = true) entities).
  destruct (coverage_returns
    (Stats.py_len (filter (λ a, truthy (entry_get "area_id" a) = true) autos))
    (Stats.py_len autos)) as (pa & -> & Hpa & _).
  destruct (coverage_returns
    (Stats.py_len (filter (λ a, truthy (entry_get "icon" a) = true) autos))
    (Stats.py_len autos)) as (pi & -> & Hpi & _).
  destruct (coverage_returns
    (Stats.py_len (filter (λ a, truthy (entry_get "labels" a) = true) autos))
    (Stats.py_len autos)) as (pl & -> & Hpl & _).
  eexists. split; [done|]. simpl. intros Hnone.
  assert (Stats.py_len autos = 0%Z) as H0 by (by rewrite Hnone).
  auto.
Qed.

Lemma stats_never_divides_by_zero_witness :
  ∃ r, Stats.cmd_stats [Samples.sensor_2] = Returned r ∧
       Stats.pct_area r = 0%Z.
Proof.
  destruct (stats_never_divides_by_zero [Samples.sensor_2])
    as (r & Hr & Hzero).
  exists r. split; [done|]. by apply Hzero.
Defined.

(** ** [fix_automation_registry.main] *)

Section main_facts.
Import FixMain.

(** The backup never lands on the registry file. *)
Lemma backup_path_ne (ts : string) : backup_path ts ≠ REGISTRY_PATH.
Proof. unfold backup_path, REGISTRY_PATH. simpl. discriminate. Qed.

(** What [main] does, given the text of the registry file. *)
Lemma main_eq decode encode (ts : string) (fs : gmap string string) :
  main decode encode ts fs =
    match fs !! REGISTRY_PATH with
    | None => (Raised FileNotFoundError, fs)
    | Some text =>
        let fs1 := <[backup_path ts := text]> fs in
        match decode text with
        | Raised e => (Raised e, fs1)
        | Returned registry =>
            match Fix.fix_registry (entities registry) with
            | None => (Raised ValueError, fs1)
            | Some out =>
                (Returned (),
                 <[REGISTRY_PATH :=
                     encode {| entities := out;
                               envelope := envelope registry |}]> fs1)
            end
        end
    end.
Proof.
  unfold main. destruct (fs !! REGISTRY_PATH) as [text|] eqn:Hreg; [|done].
  simpl. rewrite lookup_insert_ne by apply backup_path_ne.
  by rewrite Hreg.
Qed.

End main_facts.

(** C7.  [main] is deterministic in the registry it reads, whatever the
    clock and the rest of the file system are:
    - two runs that find the same text in the registry file end the same
      way (both return, or both raise the same exception) and leave the
      same text in the registry file;
    - two runs that read registries with the same entity list both return,
      and write the same entity list back, each inside its own envelope. *)
Theorem main_deterministic (decode : string → outcome FixMain.document)
    (encode : FixMain.document → string)
    (ts1 ts2 : string) (fs1 fs2 : gmap string string) :
  (fs1 !! FixMain.REGISTRY_PATH = fs2 !! FixMain.REGISTRY_PATH →
   (FixMain.main decode encode ts1 fs1).1 =
     (FixMain.main decode encode ts2 fs2).1 ∧
   (FixMain.main decode encode ts1 fs1).2 !! FixMain.REGISTRY_PATH =
     (FixMain.main decode encode ts2 fs2).2 !! FixMain.REGISTRY_PATH) ∧
  (∀ text1 text2 doc1 doc2,
     fs1 !! FixMain.REGISTRY_PATH = Some text1 →
     fs2 !! FixMain.REGISTRY_PATH = Some text2 →
     decode text1 = Returned doc1 → decode text2 = Returned doc2 →
     FixMain.entities doc1 = FixMain.entities doc2 →
     ∃ out,
       FixMain.main decode encode ts1 fs1 =
         (Returned (),
          <[FixMain.REGISTRY_PATH :=
              encode {| FixMain.entities := out;
                        FixMain.envelope := FixMain.envelope doc1 |}]>
            (<[FixMain.backup_path ts1 := text1]> fs1)) ∧
       FixMain.main decode encode ts2 fs2 =
         (Returned (),
          <[FixMain.REGISTRY_PATH :=
              encode {| FixMain.entities := out;
                        FixMain.envelope := FixMain.envelope doc2 |}]>
            (<[FixMain.backup_path ts2 := text2]> fs2))).
Proof.
  split.
  - intros Heq. rewrite !main_eq, <- Heq.
    destruct (fs1 !! FixMain.REGISTRY_PATH) as [text|] eqn:Hreg; simpl.
    2: { split; [done|]. by rewrite Hreg, <- Heq. }
    destruct (decode text) as [registry|e]; simpl.
    2: { split; [done|].
         rewrite !lookup_insert_ne by apply backup_path_ne. congruence. }
    destruct (Fix.fix_registry (FixMain.entities registry)) as [out|]; simpl.
    + split; [done|]. by rewrite !lookup_insert_eq.
    + split; [done|].
      rewrite !lookup_insert_ne by apply backup_path_ne. congruence.
  - intros text1 text2 doc1 doc2 Hfs1 Hfs2 Hdoc1 Hdoc2 Hsame.
    destruct (run_is_Some (FixMain.entities doc1)) as [st Hrun].
    exists (Fix.contents st).
    rewrite !main_eq, Hfs1, Hfs2, Hdoc1, Hdoc2, <- Hsame.
    unfold Fix.fix_registry. rewrite Hrun. done.
Qed.

Lemma main_deterministic_witness :
  (FixMain.main Samples.decode Samples.encode "20260107_120000"
     {[ FixMain.REGISTRY_PATH := "home" ]}).2 !! FixMain.REGISTRY_PATH =
  (FixMain.main Samples.decode Samples.encode "20270101_000000"
     {[ FixMain.REGISTRY_PATH := "home"; "/tmp/other" := "x" ]}).2
    !! FixMain.REGISTRY_PATH ∧
  ∃ out,
    FixMain.main Samples.decode Samples.encode "20260107_120000"
      {[ FixMain.REGISTRY_PATH := "home" ]} =
      (Returned (),
       <[FixMain.REGISTRY_PATH :=
           Samples.encode {| FixMain.entities := out;
                             FixMain.envelope := JNull |}]>
         (<[FixMain.backup_path "20260107_120000" := "home"]>
            {[ FixMain.REGISTRY_PATH := "home" ]})).
Proof.
  destruct (main_deterministic Samples.decode Samples.encode
              "20260107_120000" "20270101_000000"
              {[ FixMain.REGISTRY_PATH := "home" ]}
              {[ FixMain.REGISTRY_PATH := "home"; "/tmp/other" := "x" ]})
    as [Htext Hlist].
  split.
  - apply Htext. by vm_compute.
  - destruct (Hlist "home" "home"
                {| FixMain.entities := Samples.home;
                   FixMain.envelope := JNull |}
                {| FixMain.entities := Samples.home;
                   FixMain.envelope := JNull |})
      as (out & Hout & _); try (by vm_compute).
    by exists out.
Defined.

(** ** Backup and restore *)

(** X5.  Every run of [backup] ends in one of these ways, where [fetched] is
    the directory as [scp] left it:
    - it returns the backup path: the transfer succeeded, the directory is
      as fetched, and the file at that path parses as JSON of the
      registry's shape;
    - it returns [None] after a failed transfer, and the directory is as
      fetched;
    - it returns [None] after a successful transfer whose file is text
      that is not JSON ([JSONDecodeError]), and that file has been
      deleted;
    - it raises after a successful transfer: the file is missing, or
      reading it raises something else than [JSONDecodeError] (as
      [UnicodeDecodeError] on bytes that are not text), or it parses as
      JSON that is not an object of the registry's shape; the directory
      is as fetched, the file included. *)
Theorem backup_outcomes (json_loads : string → outcome json)
    (timestamp : string) (scp : Backup.scp_result) (fs : Backup.localfs) :
  let name := Backup.backup_name timestamp in
  let fetched :=
    Backup.files (Backup.after_scp name scp (Some (Backup.files fs))) in
  match Backup.backup json_loads timestamp scp fs with
  | (Returned (Some path), fs') =>
      path = name ∧ Backup.returncode scp = 0%Z ∧
      Backup.files fs' = fetched ∧
      ∃ text data n, Backup.files fs' !! path = Some text ∧
                     json_loads text = Returned data ∧
                     Backup.entity_count data = Returned n
  | (Returned None, fs') =>
      (Backup.returncode scp ≠ 0%Z ∧ Backup.files fs' = fetched) ∨
      (Backup.returncode scp = 0%Z ∧
       (∃ text, fetched !! name = Some text ∧
                json_loads text = Raised JSONDecodeError) ∧
       Backup.files fs' = delete name fetched)
  | (Raised e, fs') =>
      Backup.returncode scp = 0%Z ∧ Backup.files fs' = fetched ∧
      (fetched !! name = None ∧ e = FileNotFoundError
       ∨
       (∃ text, fetched !! name = Some text ∧
                json_loads text = Raised e ∧ e ≠ JSONDecodeError)
       ∨
       ∃ text data, fetched !! name = Some text ∧
                    json_loads text = Returned data ∧
                    Backup.entity_count data = Raised e)
  end.
Proof.
  intros name fetched. unfold Backup.backup. fold name.
  change (Backup.files
            (Backup.after_scp name scp (Some (Backup.files fs))))
    with fetched.
  destruct (Backup.returncode scp =? 0)%Z eqn:Hrc; simpl.
  - apply Z.eqb_eq in Hrc.
    destruct (fetched !! name) as [text|] eqn:Hfile;
      [|split_and!; [done..|by left]].
    destruct (json_loads text) as [data|e0] eqn:Hparse.
    + destruct (Backup.entity_count data) as [n|e] eqn:Hcount.
      * split_and!; [done..|]. by exists text, data, n.
      * split_and!; [done..|]. right. right. by exists text, data.
    + destruct e0;
        try (split_and!; [done..|]; right; left; by exists text).
      right. split_and!; [done| |done]. by exists text.
  - apply Z.eqb_neq in Hrc. by left.
Qed.

(** C5.  The claim: whenever [backup] fails, no backup file that is not
    valid JSON remains.  The code, on a transfer that breaks off after the
    first bytes: [backup] returns [None] at once, and the truncated file,
    which does not parse, stays in the backup directory; only the branch
    for [JSONDecodeError] deletes the file. *)
Lemma backup_keeps_partial_file :
  ∃ fs', Backup.backup Samples.loads "20260107_120000" Samples.broken_scp None
           = (Returned None, fs') ∧
         Backup.files fs' !! Backup.backup_name "20260107_120000"
           = Some Samples.truncated_text ∧
         Samples.loads Samples.truncated_text = Raised JSONDecodeError.
Proof. eexists. split_and!; [by vm_compute | by vm_compute | done]. Qed.

(** X6.  The guards of [restore].  It sends nothing to the host and returns
    [False] when the backup file is missing, when it is text that is not
    JSON ([JSONDecodeError]), and when the user's answer, put in lower
    case, is not [y].  It raises before asking, and sends nothing either,
    when reading the file raises something else than [JSONDecodeError]
    (as [UnicodeDecodeError] on bytes that are not text) and when the file
    parses as JSON that is not an object of the registry's shape.
    Whenever it sends a command, the file exists, parses with the
    registry's shape and the user confirmed; it then copies the remote
    registry aside, uploads the backup and, if the upload succeeded, moves
    it over the remote registry; it returns [True] exactly when upload and
    move succeed. *)
Theorem restore_guards (json_loads : string → outcome json)
    (timestamp answer : string) (remote : Backup.command → Z)
    (fs : Backup.localfs) :
  let name := Backup.backup_name timestamp in
  let res := Backup.restore json_loads timestamp answer remote fs in
  (Backup.files fs !! name = None → res = (Returned false, [])) ∧
  (∀ text, Backup.files fs !! name = Some text →
           json_loads text = Raised JSONDecodeError →
           res = (Returned false, [])) ∧
  (∀ text e, Backup.files fs !! name = Some text →
           json_loads text = Raised e → e ≠ JSONDecodeError →
           res = (Raised e, [])) ∧
  (∀ text data e, Backup.files fs !! name = Some text →
           json_loads text = Returned data →
           Backup.entity_count data = Raised e →
           res = (Raised e, [])) ∧
  (∀ text data n, Backup.files fs !! name = Some text →
           json_loads text = Returned data →
           Backup.entity_count data = Returned n →
           PyStr.lower answer ≠ "y" →
           res = (Returned false, [])) ∧
  (∀ text data n, Backup.files fs !! name = Some text →
           json_loads text = Returned data →
           Backup.entity_count data = Returned n →
           PyStr.lower answer = "y" →
           Backup.ScpUpload name text ∈ res.2) ∧
  (res.2 ≠ [] →
   ∃ text data n remote_backup,
     Backup.files fs !! name = Some text ∧
     json_loads text = Returned data ∧
     Backup.entity_count data = Returned n ∧ PyStr.lower answer = "y" ∧
     let upload := Backup.ScpUpload name text in
     (res.2 = [Backup.SshCopyRegistry remote_backup; upload] ∧
      remote upload ≠ 0%Z ∧ res.1 = Returned false
      ∨
      res.2 = [Backup.SshCopyRegistry remote_backup; upload;
               Backup.SshMoveToRegistry] ∧
      remote upload = 0%Z ∧
      res.1 = Returned (bool_decide (remote Backup.SshMoveToRegistry = 0%Z)))).
Proof.
  intros name res. subst res. unfold Backup.restore. fold name.
  destruct (Backup.files fs !! name) as [text|] eqn:Hfile.
  2: { split_and!; try done; intros; simpl in *; simplify_eq; congruence. }
  destruct (json_loads text) as [data|e0] eqn:Hparse.
  2: { destruct e0;
         split_and!; try done; intros; simpl in *; simplify_eq; congruence. }
  destruct (Backup.entity_count data) as [n|e] eqn:Hcount.
  2: { split_and!; try done; intros; simpl in *; simplify_eq; congruence. }
  destruct (String.eqb (PyStr.lower answer) "y") eqn:Hans; simpl.
  2: { apply String.eqb_neq in Hans.
       split_and!; try done; intros; simpl in *; simplify_eq; congruence. }
  apply String.eqb_eq in Hans.
  split_and!; try done; try (intros; simpl in *; simplify_eq; congruence).
  { intros text' data' n' [= <-] _ _ _.
    destruct (remote (Backup.ScpUpload name text) =? 0)%Z; simpl;
      [destruct (remote Backup.SshMoveToRegistry =? 0)%Z; simpl|];
      right; left. }
  intros _. eexists text, data, n, _. split_and!; [done..|].
  destruct (remote (Backup.ScpUpload name text) =? 0)%Z eqn:Hup; simpl.
  - apply Z.eqb_eq in Hup. right.
    destruct (remote Backup.SshMoveToRegistry =? 0)%Z eqn:Hmv; simpl.
    + apply Z.eqb_eq in Hmv. by rewrite bool_decide_true.
    + apply Z.eqb_neq in Hmv. by rewrite bool_decide_false.
  - apply Z.eqb_neq in Hup. by left.
Qed.

Lemma restore_guards_example :
  Backup.restore Samples.loads "20260101_000000" "n" Samples.host_ok
    Samples.backup_dir = (Returned false, []) ∧
  Backup.restore Samples.loads "20251231_000000" "y" Samples.host_ok
    Samples.backup_dir = (Returned false, []).
Proof.
  split.
  - apply (restore_guards Samples.loads "20260101_000000" "n"
             Samples.host_ok Samples.backup_dir)
      with (text := Samples.registry_text)
           (data := JObj [("data", JObj [("entities",
                                          JArr [JObj []; JObj []])])])
           (n := 2%Z); by vm_compute.
  - apply (restore_guards Samples.loads "20251231_000000" "y"
             Samples.host_ok Samples.backup_dir).
    by vm_compute.
Defined.

(** C6.  The claim: [restore] returns failure, without transferring
    anything, whenever the user does not confirm.  The code, on a backup
    file that holds a JSON list while the user declines: [restore] sends
    nothing, but it does not return [False]; [data.get] raises
    [AttributeError] before the prompt, and only [JSONDecodeError] is
    caught. *)
Lemma restore_raises_on_wrong_shape :
  Backup.files Samples.backup_dir !! Backup.backup_name "20260102_000000"
    = Some Samples.list_text ∧
  Samples.loads Samples.list_text = Returned (JArr []) ∧
  PyStr.lower "n" ≠ "y" ∧
  Backup.restore Samples.loads "20260102_000000" "n" Samples.host_ok
    Samples.backup_dir = (Raised AttributeError, []) ∧
  Backup.restore Samples.loads "20260102_000000" "n" Samples.host_ok
    Samples.backup_dir ≠ (Returned false, []).
Proof.
  split_and!; [by vm_compute | done | done | by vm_compute | by vm_compute].
Qed.

(** ** Cleaning old backups *)

Section clean_facts.
Import Backup.

#[local] Instance newer_first_total : Total newer_first.
Proof. intros x y. unfold newer_first. destruct (total String.le x y); auto. Qed.

#[local] Instance newer_first_trans : Transitive newer_first.
Proof. intros x y z ??. unfold newer_first in *. by etrans. Qed.

#[local] Instance newer_first_antisymm : AntiSymm (=) newer_first.
Proof. intros x y ??. unfold newer_first in *. by apply (anti_symm String.le). Qed.

Lemma elem_of_list_sorted_backups (fs : localfs) (name : string) :
  name ∈ list_sorted_backups fs ↔
    is_backup_name name = true ∧ is_Some (files fs !! name).
Proof.
  unfold list_sorted_backups. rewrite merge_sort_Permutation.
  rewrite list_elem_of_filter, elem_of_elements, elem_of_dom. done.
Qed.

Lemma list_sorted_backups_NoDup (fs : localfs) :
  NoDup (list_sorted_backups fs).
Proof.
  unfold list_sorted_backups. rewrite merge_sort_Permutation.
  apply NoDup_filter, NoDup_elements.
Qed.

Lemma list_sorted_backups_sorted (fs : localfs) :
  StronglySorted newer_first (list_sorted_backups fs).
Proof. apply StronglySorted_merge_sort; apply _. Qed.

Lemma lookup_foldl_delete (m : gmap string string) (l : list string)
    (name : string) :
  foldl (λ m x, delete x m) m l !! name =
    if decide (name ∈ l) then None else m !! name.
Proof.
  revert m. induction l as [|x l IH]; intros m; cbn [foldl].
  - by rewrite decide_False by apply not_elem_of_nil.
  - rewrite IH. destruct (decide (name = x)) as [->|Hne].
    + rewrite lookup_delete_eq.
      destruct (decide (x ∈ x :: l)) as [_|Hn]; [|exfalso; apply Hn; left].
      by destruct (decide (x ∈ l)).
    + rewrite lookup_delete_ne by done.
      destruct (decide (name ∈ l)) as [Hin|Hnin],
               (decide (name ∈ x :: l)) as [Hin'|Hnin']; try done.
      * exfalso. apply Hnin'. by right.
      * exfalso. by apply elem_of_cons in Hin' as [?|?].
Qed.

(** When every [unlink] succeeds, the loop deletes each listed file. *)
Lemma remove_all_ok (unlink_ok : string → bool) (l : list string)
    (fs : localfs) (n : Z) :
  (∀ name, unlink_ok name = true) →
  (remove_all unlink_ok l fs n).1 = (n + Z.of_nat (length l))%Z ∧
  files (remove_all unlink_ok l fs n).2 =
    foldl (λ m x, delete x m) (files fs) l.
Proof.
  intros Hok. revert fs n. induction l as [|x l IH]; intros fs n; simpl.
  - split; [lia | done].
  - rewrite Hok. destruct (IH (Some (delete x (files fs))) (n + 1)%Z)
      as [-> ->].
    split; [lia | done].
Qed.

End clean_facts.

(** C10, as amended.  For a [keep] that is not negative, and when every
    [unlink] succeeds: the backups are the matching file names, greatest
    first; if there are at most [keep] of them, [clean] returns 0 and
    leaves the directory as it is; otherwise it returns the number of
    backups beyond the first [keep], deletes exactly those files, and the
    backups left are the first [keep], the greatest names. *)
Theorem clean_keeps_most_recent (keep : Z) (unlink_ok : string → bool)
    (fs : Backup.localfs) :
  (0 ≤ keep)%Z → (∀ name, unlink_ok name = true) →
  let backups := Backup.list_sorted_backups fs in
  let result := Backup.clean keep unlink_ok fs in
  StronglySorted Backup.newer_first backups ∧
  ((Z.of_nat (length backups) ≤ keep)%Z → result = (0%Z, fs)) ∧
  ((keep < Z.of_nat (length backups))%Z →
   result.1 = (Z.of_nat (length backups) - keep)%Z ∧
   (∀ name, Backup.files result.2 !! name =
      if decide (name ∈ drop (Z.to_nat keep) backups)
      then None else Backup.files fs !! name) ∧
   Backup.list_sorted_backups result.2 = take (Z.to_nat keep) backups).
Proof.
  intros Hkeep Hok backups result.
  assert (Hsorted := list_sorted_backups_sorted fs). fold backups in Hsorted.
  assert (Hnd := list_sorted_backups_NoDup fs). fold backups in Hnd.
  split_and!; [done| |].
  - intros Hle. subst result. unfold Backup.clean.
    destruct (bool_decide (is_Some fs)); simpl; [|done].
    fold backups. by rewrite (proj2 (Z.leb_le _ _) Hle).
  - intros Hlt.
    assert (Hres : result = Backup.remove_all unlink_ok
                     (drop (Z.to_nat keep) backups) fs 0%Z).
    { subst result. unfold Backup.clean.
      destruct fs as [m|].
      2: { exfalso. assert (backups = []) as Hnone by (by vm_compute).
           rewrite Hnone in Hlt. simpl in Hlt. lia. }
      rewrite bool_decide_true by eauto. simpl. fold backups.
      rewrite (proj2 (Z.leb_gt _ _) Hlt). unfold Backup.py_slice_from.
      by rewrite (proj2 (Z.leb_le _ _) Hkeep). }
    destruct (remove_all_ok unlink_ok (drop (Z.to_nat keep) backups) fs 0%Z
                Hok) as [Hcount Hfiles].
    rewrite <- Hres in Hcount, Hfiles.
    assert (Hlookup : ∀ name, Backup.files result.2 !! name =
              if decide (name ∈ drop (Z.to_nat keep) backups)
              then None else Backup.files fs !! name).
    { intros name. rewrite Hfiles. apply lookup_foldl_delete. }
    split_and!; [|done|].
    + rewrite Hcount, length_drop. lia.
    + rewrite <- (take_drop (Z.to_nat keep) backups) in Hsorted, Hnd.
      apply StronglySorted_unique with (R := Backup.newer_first).
      * apply newer_first_antisymm.
      * apply list_sorted_backups_sorted.
      * by eapply StronglySorted_app_1_l.
      * apply NoDup_Permutation.
        -- apply list_sorted_backups_NoDup.
        -- by apply NoDup_app in Hnd as (? & _ & _).
        -- intros name. rewrite elem_of_list_sorted_backups, Hlookup.
           apply NoDup_app in Hnd as (_ & Hdisj & _).
           split.
           ++ intros [Hname Hsome]. case_decide as Hdrop;
                [by destruct Hsome|].
              assert (name ∈ backups) as Hin
                by (by apply elem_of_list_sorted_backups).
              rewrite <- (take_drop (Z.to_nat keep) backups) in Hin.
              by apply elem_of_app in Hin as [?|?].
           ++ intros Hin. rewrite decide_False by by apply Hdisj.
              apply elem_of_list_sorted_backups. fold backups.
              rewrite <- (take_drop (Z.to_nat keep) backups).
              apply elem_of_app. by left.
Qed.

Lemma clean_keeps_most_recent_witness :
  (Backup.clean 2 Samples.always_ok Samples.backup_dir).1 = 1%Z ∧
  Backup.list_sorted_backups
    (Backup.clean 2 Samples.always_ok Samples.backup_dir).2 =
    ["entity_registry.20260103_000000.json";
     "entity_registry.20260102_000000.json"].
Proof.
  destruct (clean_keeps_most_recent 2 Samples.always_ok Samples.backup_dir)
    as (_ & _ & Hmore); [lia | done |].
  destruct Hmore as (Hcount & _ & Hleft); [by vm_compute|].
  split.
  - rewrite Hcount. by vm_compute.
  - rewrite Hleft. by vm_compute.
Defined.

(** C10, as stated, fails for a negative [keep]: with three backups and
    [keep = -1] the slice [backups[-1:]] is the oldest backup alone;
    [clean] deletes it and two backups are left, which is not [keep] of
    them. *)
Lemma clean_negative_keep :
  Backup.list_sorted_backups Samples.backup_dir =
    ["entity_registry.20260103_000000.json";
     "entity_registry.20260102_000000.json";
     "entity_registry.20260101_000000.json"] ∧
  (Backup.clean (-1) Samples.always_ok Samples.backup_dir).1 = 1%Z ∧
  Backup.list_sorted_backups
    (Backup.clean (-1) Samples.always_ok Samples.backup_dir).2 =
    ["entity_registry.20260103_000000.json";
     "entity_registry.20260102_000000.json"] ∧
  Z.of_nat (length (Backup.list_sorted_backups
    (Backup.clean (-1) Samples.always_ok Samples.backup_dir).2)) ≠ (-1)%Z.
Proof. split_and!; by vm_compute. Qed.

(** ** The work of the duplicate fix *)

Section cost_facts.
Import Fix.
Implicit Types (st : store) (autos : pydict nat) (reg h : list entry).

Lemma remove_scan_le h a (l : list nat) : remove_scan h a l ≤ length l.
Proof.
  induction l as [|x l IH]; simpl; [done|].
  destruct (matches h a x); lia.
Qed.

Lemma step_ops_bounds autos st it :
  dict_ops (step_ops autos st it) ≤ 10 ∧
  scanned (step_ops autos st it) ≤ length (live st) ∧
  (merged (step_ops autos st it) = false →
   scanned (step_ops autos st it) = 0).
Proof.
  destruct it as [k a]. unfold step_ops.
  destruct (PyStr.endswith "_2" k); simpl; [|split_and!; [lia..|done]].
  destruct (dict_get _ autos) as [b|]; simpl; [|split_and!; [lia..|done]].
  destruct (heap st !! a) as [ea|], (heap st !! b) as [eb|]; simpl;
    try (split_and!; [lia..|done]).
  split_and!; [|apply remove_scan_le|done].
  repeat match goal with |- context [if ?c then _ else _] => destruct c end;
    lia.
Qed.

(** One record per visited key, when the loop runs to its end. *)
Lemma loop_ops_length autos items st st' :
  loop autos items st = Some st' →
  length (loop_ops autos items st) = length items.
Proof.
  revert st. induction items as [|it items IH]; intros st; [done|].
  change (loop autos (it :: items) st)
    with (step autos st it ≫= loop autos items).
  cbn [loop_ops length].
  destruct (step autos st it) as [s1|]; [|done].
  intros Hloop. f_equal. by apply IH.
Qed.

Lemma loop_ops_bounds autos items st (n : nat) :
  length (live st) ≤ n →
  Forall (λ o, dict_ops o ≤ 10 ∧ scanned o ≤ n ∧
               (merged o = false → scanned o = 0))
         (loop_ops autos items st).
Proof.
  revert st. induction items as [|it items IH]; intros st Hn;
    cbn [loop_ops]; [constructor|].
  constructor.
  - destruct (step_ops_bounds autos st it) as (? & ? & ?).
    split_and!; [done | lia | done].
  - destruct (step autos st it) as [s1|] eqn:Hstep; [|constructor].
    apply IH. apply step_live_sublist, sublist_length in Hstep. lia.
Qed.

Lemma dict_set_length {V} (k : string) (v : V) (d : pydict V) :
  length (dict_set k v d) ≤ S (length d).
Proof.
  induction d as [|[k' v'] d IH]; simpl; [done|].
  case_decide; simpl; lia.
Qed.

(** The dictionary has at most one key per automation entry. *)
Lemma automations_length reg :
  length (automations reg) ≤
    length (filter (λ e, is_automation e = true) reg).
Proof.
  induction reg as [|e reg IH] using rev_ind; [done|].
  rewrite automations_snoc, filter_app, length_app.
  destruct (is_automation e) eqn:Hauto.
  - rewrite filter_cons_True, filter_nil by done. simpl.
    pose proof (dict_set_length (entity_id e) (length reg)
                  (automations reg)). lia.
  - rewrite filter_cons_False by congruence. rewrite filter_nil. simpl. lia.
Qed.

Lemma dict_set_length_fresh {V} (k : string) (v : V) (d : pydict V) :
  k ∉ d.*1 → length (dict_set k v d) = S (length d).
Proof.
  induction d as [|[k' v'] d IH]; simpl; [done|].
  intros Hk. case_decide as Heq.
  - exfalso. apply Hk. subst. left.
  - simpl. rewrite IH; [done|]. intros Hin. apply Hk. by right.
Qed.

(** With distinct automation ids there is one key per automation entry. *)
Lemma automations_length_unique reg :
  unique_automation_ids reg →
  length (automations reg) =
    length (filter (λ e, is_automation e = true) reg).
Proof.
  induction reg as [|e reg IH] using rev_ind; [done|].
  intros Huniq.
  assert (unique_automation_ids reg) as Hreg.
  { intros i j ei ej Hi Hj. apply (Huniq i j ei ej); by apply lookup_app_l_Some. }
  rewrite automations_snoc, filter_app, length_app, <- (IH Hreg).
  destruct (is_automation e) eqn:Hauto.
  - rewrite filter_cons_True, filter_nil by done. simpl.
    rewrite dict_set_length_fresh; [lia|].
    intros [i Hi]%dict_get_is_Some.
    apply automations_get_Some in Hi as (e' & Hi & Hid & Hauto').
    assert (i = length reg); [|apply lookup_lt_Some in Hi; lia].
    apply (Huniq i (length reg) e' e); [by apply lookup_app_l_Some| |done..].
    by rewrite lookup_app_r, Nat.sub_diag by lia.
  - rewrite filter_cons_False by congruence. rewrite filter_nil. simpl. lia.
Qed.

Lemma sum_list_le_length (l : list nat) (n : nat) :
  Forall (λ x, x ≤ n) l → sum_list l ≤ length l * n.
Proof. induction 1; simpl; lia. Qed.

End cost_facts.

(** C4, as amended.  The loop is a single pass over the dictionary: it
    makes one visit per key, the keys are pairwise distinct and there are
    at most as many as automation entries (exactly as many when the
    automation ids of the registry are pairwise distinct); a visit performs
    at most ten dictionary operations.  A visit that merges also runs
    [entities.remove], which compares up to every element of the entity
    list with the entry; in total at most as many elements as visits
    times the length of the registry are compared. *)
Theorem fix_work_is_bounded (reg : list entry) :
  length (Fix.run_ops reg) = length (Fix.automations reg) ∧
  NoDup (Fix.automations reg).*1 ∧
  length (Fix.automations reg) ≤
    length (filter (λ e, is_automation e = true) reg) ∧
  (unique_automation_ids reg →
   length (Fix.automations reg) =
     length (filter (λ e, is_automation e = true) reg)) ∧
  Forall (λ o, Fix.dict_ops o ≤ 10 ∧ Fix.scanned o ≤ length reg ∧
               (Fix.merged o = false → Fix.scanned o = 0))
         (Fix.run_ops reg) ∧
  Fix.total_scanned reg ≤ length (Fix.automations reg) * length reg.
Proof.
  destruct (run_is_Some reg) as [st Hrun].
  assert (Hlen := loop_ops_length _ _ _ _ Hrun).
  assert (Hall := loop_ops_bounds (Fix.automations reg) (Fix.automations reg)
                    (Fix.init reg) (length reg)).
  split_and!.
  - done.
  - apply automations_keys_NoDup.
  - apply automations_length.
  - apply automations_length_unique.
  - apply Hall. simpl. by rewrite length_seq.
  - unfold Fix.total_scanned, Fix.run_ops. rewrite <- Hlen.
    rewrite <- (length_fmap Fix.scanned).
    apply sum_list_le_length, Forall_fmap.
    eapply Forall_impl; [apply Hall; simpl; by rewrite length_seq|].
    by intros o (_ & ? & _).
Qed.

Lemma fix_work_is_bounded_witness :
  length (Fix.run_ops Samples.home) = 3 ∧
  Fix.scanned <$> Fix.run_ops Samples.home = [0; 2; 0] ∧
  Fix.total_scanned Samples.home ≤ 3 * 4.
Proof.
  destruct (fix_work_is_bounded Samples.home)
    as (Hvisits & _ & _ & Hkeys & _ & Htotal).
  split_and!.
  - rewrite Hvisits, (Hkeys home_unique_ids). by vm_compute.
  - by vm_compute.
  - done.
Defined.

(** ** A registry on which the duplicate fix is quadratic *)

Section crowd_facts.
Import Fix.
Implicit Types (st : store) (autos : pydict nat) (reg h : list entry).

Lemma remove_skip h a (pre l : list nat) :
  (∀ x, x ∈ pre → matches h a x = false) →
  list_remove h a (pre ++ l) = (λ l', pre ++ l') <$> list_remove h a l ∧
  remove_scan h a (pre ++ l) = length pre + remove_scan h a l.
Proof.
  intros Hpre. induction pre as [|x pre IH]; simpl.
  - split; [|done]. by destruct (list_remove h a l).
  - rewrite (Hpre x) by left.
    destruct IH as [-> ->]; [intros; apply Hpre; by right|].
    split; [|done]. by destruct (list_remove h a l).
Qed.

Lemma remove_scan_pos h a (l : list nat) :
  is_Some (list_remove h a l) → 1 ≤ remove_scan h a l.
Proof.
  destruct l as [|x l]; simpl; [by intros [? ?]|].
  destruct (matches h a x); lia.
Qed.

(** These entries stay at the front of the list, and every merging visit
    scans past them. *)
Lemma step_scans_bystanders reg (m : nat) st k a st' :
  bystanders_first m reg →
  (k, a) ∈ automations reg →
  Forall2 same_frame (heap st) reg →
  (∃ rest, live st = seq 0 m ++ rest) →
  step (automations reg) st (k, a) = Some st' →
  (∃ rest', live st' = seq 0 m ++ rest') ∧
  (is_Some (target (automations reg) k) →
   m + 1 ≤ scanned (step_ops (automations reg) st (k, a))).
Proof.
  intros Hby Hin Hfr [rest Hlive] Hstep.
  assert (Hfr' := step_same_frame _ _ _ _ _ Hfr Hstep).
  destruct (target (automations reg) k) as [b|] eqn:Ht.
  2: { rewrite step_target_None in Hstep by done. simplify_eq.
       split; [by exists rest | by intros [? ?]]. }
  revert Hstep Hfr'. unfold target in Ht. unfold step, step_ops.
  destruct (PyStr.endswith "_2" k); [|done]. rewrite Ht.
  destruct (heap st !! a) as [ea|] eqn:Ha; simpl; [|done].
  destruct (heap st !! b) as [eb|] eqn:Hb; simpl; [|done].
  set (h' := <[b:=set_unique_id (unique_id ea) eb]> (heap st)).
  intros Hstep Hfr'.
  apply automations_elem_of in Hin as (ra & Hra & _ & Hauto).
  assert (Hfront : ∀ x, x ∈ seq 0 m → matches h' a x = false).
  { intros x [_ Hx]%elem_of_seq.
    destruct (Hby x) as (rx & Hrx & Hnot); [lia|].
    unfold matches. apply orb_false_intro.
    - apply Nat.eqb_neq. intros ->. congruence.
    - destruct (h' !! x) as [ex|] eqn:Hex, (h' !! a) as [ea'|] eqn:Hea';
        try done.
      destruct (py_eq_entry ex ea') eqn:Heq; [|done].
      apply py_eq_entry_entity_id in Heq.
      assert (Forall2 same_frame h' reg) as Hfh.
      { destruct (list_remove h' a (live st)); simpl in *; by simplify_eq. }
      destruct (Forall2_lookup_l _ _ _ _ _ Hfh Hex) as (? & ? & Hidx & _).
      destruct (Forall2_lookup_l _ _ _ _ _ Hfh Hea') as (? & ? & Hida & _).
      simplify_eq.
      rewrite (is_automation_entity_id rx ra) in Hnot by congruence.
      congruence. }
  rewrite Hlive in Hstep |- *.
  destruct (remove_skip h' a (seq 0 m) rest Hfront) as [Hrm Hscan].
  rewrite Hrm in Hstep. rewrite Hscan, length_seq.
  destruct (list_remove h' a rest) as [rest'|] eqn:Hrest; simpl in *;
    [|done].
  simplify_eq. split; [by exists rest'|]. intros _.
  pose proof (remove_scan_pos h' a rest) as Hpos.
  rewrite Hrest in Hpos. specialize (Hpos (mk_is_Some _ _ eq_refl)). lia.
Qed.

Lemma loop_scans_bystanders reg (m : nat) items st st' :
  bystanders_first m reg →
  (∀ it, it ∈ items → it ∈ automations reg) →
  Forall2 same_frame (heap st) reg →
  (∃ rest, live st = seq 0 m ++ rest) →
  loop (automations reg) items st = Some st' →
  (m + 1) * length (filter (λ it, is_Some (target (automations reg) it.1))
                           items)
    ≤ sum_list (scanned <$> loop_ops (automations reg) items st).
Proof.
  intros Hby. revert st.
  induction items as [|[k a] items IH]; intros st Hitems Hfr Hfront;
    [simpl; lia|].
  change (loop (automations reg) ((k, a) :: items) st)
    with (step (automations reg) st (k, a) ≫= loop (automations reg) items).
  cbn [loop_ops].
  destruct (step (automations reg) st (k, a)) as [s1|] eqn:Hstep; [|done].
  intros Hloop.
  destruct (step_scans_bystanders reg m st k a s1) as [Hfront1 Hscan];
    [done | apply Hitems; left | done..|].
  assert (Hfr1 := step_same_frame _ _ _ _ _ Hfr Hstep).
  specialize (IH s1 (λ it Hit, Hitems it (list_elem_of_further _ _ _ Hit))
                Hfr1 Hfront1 Hloop).
  rewrite fmap_cons. cbn [sum_list sum_list_with].
  rewrite filter_cons. simpl in *. case_decide as Hmerge; simpl.
  - specialize (Hscan Hmerge). lia.
  - lia.
Qed.

End crowd_facts.

Section crowd_strings.

Lemma string_length_app (s t : string) :
  String.length (s +:+ t) = String.length s + String.length t.
Proof. induction s as [|c s IH]; simpl; [done | by rewrite IH]. Qed.

Lemma substring_app_r (s t : string) :
  String.substring (String.length s) (String.length t) (s +:+ t) = t.
Proof. induction s as [|c s IH]; simpl; [apply substring_all | done]. Qed.

Lemma substring_app_l (s t : string) :
  String.substring 0 (String.length s) (s +:+ t) = s.
Proof.
  induction s as [|c s IH]; simpl; [by destruct t | by rewrite IH].
Qed.

Lemma endswith_app (s suf : string) :
  PyStr.endswith suf (s +:+ suf) = true.
Proof.
  unfold PyStr.endswith. rewrite string_length_app.
  replace (String.length s + String.length suf - String.length suf)
    with (String.length s) by lia.
  rewrite substring_app_r, String.eqb_refl, andb_true_r.
  apply Nat.leb_le. lia.
Qed.

Lemma drop_last_app (s suf : string) :
  PyStr.drop_last (String.length suf) (s +:+ suf) = s.
Proof.
  unfold PyStr.drop_last. rewrite string_length_app.
  replace (String.length s + String.length suf - String.length suf)
    with (String.length s) by lia.
  apply substring_app_l.
Qed.

Lemma room_length (i : nat) :
  String.length (Samples.room i) = String.length "automation.room" + i.
Proof.
  unfold Samples.room. rewrite string_length_app. f_equal.
  induction i as [|i IH]; [done|]. simpl. by rewrite IH.
Qed.

Lemma duplicate_id_inj :
  Inj (=) (=) (λ i, entity_id (Samples.duplicate i)).
Proof.
  intros i j Heq. simpl in Heq.
  apply (f_equal String.length) in Heq.
  rewrite !string_length_app, !room_length in Heq. lia.
Qed.

End crowd_strings.

Section crowd_registry.
Import Fix Samples.

Lemma crowd_length (n : nat) : length (crowd n) = 3 * n.
Proof.
  unfold crowd.
  rewrite !length_app, length_replicate, !length_fmap, length_seq. lia.
Qed.

Lemma crowd_bystanders (n : nat) : bystanders_first n (crowd n).
Proof.
  intros x Hx. exists sensor. split; [|done]. unfold crowd.
  rewrite lookup_app_l by (rewrite length_replicate; lia).
  by apply lookup_replicate_2.
Qed.

(** The key of every duplicate is in the dictionary, and the loop merges
    when it visits it. *)
Lemma crowd_merging_key (n i : nat) :
  i < n →
  ∃ a, (entity_id (duplicate i), a) ∈ automations (crowd n) ∧
       is_Some (target (automations (crowd n)) (entity_id (duplicate i))).
Proof.
  intros Hi.
  assert (Hseq : i ∈ seq 0 n) by (apply elem_of_seq; lia).
  assert (duplicate i ∈ crowd n) as [x Hx]%list_elem_of_lookup_1.
  { unfold crowd. rewrite !elem_of_app. right. right.
    apply list_elem_of_fmap. by exists i. }
  assert (original i ∈ crowd n) as [y Hy]%list_elem_of_lookup_1.
  { unfold crowd. rewrite !elem_of_app. right. left.
    apply list_elem_of_fmap. by exists i. }
  destruct (automations_get_is_Some (crowd n) x (duplicate i) Hx eq_refl)
    as [a Ha].
  exists a. split; [by apply dict_get_elem_of|].
  assert (Hd : PyStr.drop_last 2 (room i +:+ "_2") = room i)
    by apply (drop_last_app (room i) "_2").
  unfold target.
  change (entity_id (duplicate i)) with (room i +:+ "_2")%string.
  rewrite (endswith_app (room i) "_2"), Hd.
  apply (automations_get_is_Some (crowd n) y (original i) Hy eq_refl).
Qed.

Lemma crowd_merging_keys (n : nat) :
  n ≤ length (filter (λ it, is_Some (target (automations (crowd n)) it.1))
                     (automations (crowd n))).
Proof.
  set (merging := filter _ _).
  trans (length ((λ i, entity_id (duplicate i)) <$> seq 0 n)).
  { by rewrite length_fmap, length_seq. }
  rewrite <- (length_fmap fst merging).
  apply submseteq_length, NoDup_submseteq.
  - eapply @NoDup_fmap_2; [apply duplicate_id_inj | apply NoDup_seq].
  - intros k (i & -> & [_ Hi]%elem_of_seq)%list_elem_of_fmap.
    destruct (crowd_merging_key n i) as (a & Hin & Ht); [lia|].
    apply list_elem_of_fmap. exists (entity_id (duplicate i), a).
    split; [done|]. by apply list_elem_of_filter.
Qed.

(** On [crowd n], which has [3 * n] entries, [entities.remove] compares
    at least [(n + 1) * n] elements. *)
Lemma crowd_total_scanned (n : nat) : (n + 1) * n ≤ total_scanned (crowd n).
Proof.
  destruct (run_is_Some (crowd n)) as [st Hrun].
  assert (Hfront : ∃ rest, live (init (crowd n)) = seq 0 n ++ rest).
  { simpl. rewrite crowd_length.
    exists (seq n (2 * n)). rewrite <- seq_app. f_equal; lia. }
  pose proof (loop_scans_bystanders (crowd n) n (automations (crowd n))
                (init (crowd n)) st (crowd_bystanders n)
                (λ it Hit, Hit) (same_frame_refl _) Hfront Hrun) as Hscan.
  unfold total_scanned, run_ops.
  etrans; [|exact Hscan].
  apply Nat.mul_le_mono_l, crowd_merging_keys.
Qed.

End crowd_registry.

(** C4, as stated, fails: the number of list elements the duplicate fix
    compares is not linear in the length of the registry.  Whatever the
    constant [c], the registry [crowd (3 * c + 1)] takes more than [c]
    comparisons per entry. *)
Lemma fix_work_is_not_linear :
  ¬ ∃ c, ∀ reg, Fix.total_scanned reg ≤ c * length reg.
Proof.
  intros [c Hc]. specialize (Hc (Samples.crowd (3 * c + 1))).
  pose proof (crowd_total_scanned (3 * c + 1)) as Hlow.
  rewrite crowd_length in Hc. nia.
Qed.

(** * Further properties of the scripts *)

(** ** The duplicate fix, run again *)

Section fix_again.
Import Fix.
Implicit Types (st : store) (autos : pydict nat) (reg : list entry).

(** Without a key on which to merge, the loop changes nothing. *)
Lemma loop_no_merge autos items st :
  (∀ k a, (k, a) ∈ items → target autos k = None) →
  loop autos items st = Some st.
Proof.
  induction items as [|[k a] items IH]; intros Hno; [done|].
  change (loop autos ((k, a) :: items) st)
    with (step autos st (k, a) ≫= loop autos items).
  rewrite step_target_None by (apply (Hno k a); left). simpl.
  apply IH. intros k' a' Hin. apply (Hno k' a'). by right.
Qed.

(** A registry in which no [_2] entry has its original is left as it is. *)
Lemma fix_registry_fixed_point reg :
  (∀ d, d ∈ reg → is_suffixed d = true → ¬ has_base reg d) →
  fix_registry reg = Some reg.
Proof.
  intros Hclean. unfold fix_registry, run.
  rewrite loop_no_merge.
  - simpl. unfold contents. simpl. by rewrite omap_lookup_seq.
  - intros k a Hin.
    destruct (target (automations reg) k) as [b|] eqn:Ht; [|done].
    exfalso.
    pose proof Hin as (e & Ha & Hk & _)%automations_elem_of.
    destruct (merging_key_has_base reg k a e Hin) as [Hsuf Hbase];
      [by rewrite Ht | done |].
    eapply Hclean; [|done..]. by eapply list_elem_of_lookup_2.
Qed.

Lemma is_suffixed_entity_id (e e' : entry) :
  entity_id e = entity_id e' → is_suffixed e = is_suffixed e'.
Proof. unfold is_suffixed, is_automation. by intros ->. Qed.

(** With distinct automation ids, what the fix leaves holds no [_2] entry
    together with its original. *)
Lemma run_contents_clean reg st :
  unique_automation_ids reg → run reg = Some st →
  ∀ d, d ∈ contents st → is_suffixed d = true →
       ¬ has_base (contents st) d.
Proof.
  intros Huniq Hrun d (x & Hx & Hxd)%list_elem_of_omap Hsuf
         (b & (y & Hy & Hyb)%list_elem_of_omap & _ & Hautob & Hbase).
  assert (Hfr := run_same_frame _ _ Hrun).
  destruct (Forall2_lookup_l _ _ _ _ _ Hfr Hxd) as (d0 & Hd0 & Hidd & _).
  destruct (Forall2_lookup_l _ _ _ _ _ Hfr Hyb) as (b0 & Hb0 & Hidb & _).
  apply (run_removed reg st x y d0 b0 Huniq Hrun Hd0 Hb0); [|done].
  split_and!.
  - by rewrite <- (is_suffixed_entity_id d d0).
  - by rewrite <- (is_automation_entity_id b b0).
  - unfold base_id in *. congruence.
Qed.

(** Every reference of the list points into the heap. *)
Lemma run_contents_length reg st :
  run reg = Some st → length (contents st) = length (live st).
Proof.
  intros Hrun.
  assert (Hlen := Forall2_length _ _ _ (run_same_frame _ _ Hrun)).
  assert (Hsub := run_live_sublist _ _ Hrun).
  assert (Forall (λ a, a < length (heap st)) (live st)) as Hall.
  { apply Forall_forall. intros a Ha.
    apply (elem_of_sublist _ _ _ Ha) in Hsub.
    apply elem_of_seq in Hsub. lia. }
  clear Hsub. unfold contents. induction Hall as [|a l Ha _ IH]; [done|].
  cbn [omap list_omap length].
  destruct (lookup_lt_is_Some_2 _ _ Ha) as [e ->]. cbn [length].
  f_equal. exact IH.
Qed.

Lemma step_ops_merged autos st k a :
  merged (step_ops autos st (k, a)) =
    bool_decide (is_Some (target autos k)).
Proof.
  unfold step_ops, target.
  destruct (PyStr.endswith "_2" k).
  - destruct (dict_get _ autos) as [b|].
    + rewrite (bool_decide_true (is_Some (Some b))) by eauto.
      by destruct (heap st !! a), (heap st !! b).
    + symmetry. apply bool_decide_false. by intros [? ?].
  - symmetry. apply bool_decide_false. by intros [? ?].
Qed.

(** Each merging visit takes exactly one reference off the list. *)
Lemma loop_merged_count autos items st st' :
  loop autos items st = Some st' →
  length (live st') +
    length (filter (λ o, merged o = true) (loop_ops autos items st))
  = length (live st).
Proof.
  revert st. induction items as [|[k a] items IH]; intros st.
  { intros [= <-]. simpl. lia. }
  change (loop autos ((k, a) :: items) st)
    with (step autos st (k, a) ≫= loop autos items).
  cbn [loop_ops].
  destruct (step autos st (k, a)) as [s1|] eqn:Hstep; [|done].
  intros Hloop. specialize (IH s1 Hloop).
  rewrite filter_cons, step_ops_merged.
  destruct (target autos k) as [b|] eqn:Ht.
  - destruct (step_target_Some _ _ _ _ _ _ Ht Hstep)
      as (ea & eb & l1 & x & l2 & _ & _ & _ & Hl & Hl' & _).
    rewrite bool_decide_true by eauto. rewrite decide_True by done.
    rewrite Hl. rewrite Hl' in IH.
    rewrite length_app in *. simpl. lia.
  - rewrite step_target_None in Hstep by done. simplify_eq.
    rewrite bool_decide_false by (by intros [? ?]).
    rewrite decide_False by done. done.
Qed.

End fix_again.

(** X1.  A registry in which no [_2] automation entry has its original is
    a fixed point of the duplicate fix: the list comes back as it is, in
    particular when no entity id ends in [_2]. *)
Theorem fix_registry_without_duplicates (reg : list entry) :
  (∀ d, d ∈ reg → is_suffixed d = true → ¬ has_base reg d) →
  Fix.fix_registry reg = Some reg.
Proof. apply fix_registry_fixed_point. Qed.

Lemma fix_registry_without_duplicates_witness :
  Fix.fix_registry [Samples.kitchen; Samples.porch_2; Samples.sensor_2] =
    Some [Samples.kitchen; Samples.porch_2; Samples.sensor_2].
Proof.
  apply fix_registry_without_duplicates.
  intros d Hd Hsuf (b & Hb & _ & _ & Hbase).
  repeat (apply elem_of_cons in Hd as [->|Hd]);
    try (by apply elem_of_nil in Hd); try done.
  repeat (apply elem_of_cons in Hb as [->|Hb]; [by vm_compute in Hbase|]).
  by apply elem_of_nil in Hb.
Defined.

(** X2.  With pairwise distinct automation ids the duplicate fix is
    idempotent: run on its own output, it returns that output unchanged. *)
Theorem fix_registry_idempotent (reg : list entry) :
  unique_automation_ids reg →
  ∃ out, Fix.fix_registry reg = Some out ∧ Fix.fix_registry out = Some out.
Proof.
  intros Huniq. destruct (run_is_Some reg) as [st Hrun].
  exists (Fix.contents st). split.
  - unfold Fix.fix_registry. by rewrite Hrun.
  - apply fix_registry_fixed_point. by apply (run_contents_clean reg).
Qed.

Lemma fix_registry_idempotent_witness :
  ∃ out, Fix.fix_registry Samples.home = Some out ∧
         Fix.fix_registry out = Some out.
Proof. apply fix_registry_idempotent, home_unique_ids. Defined.

(** X3.  The number of merging visits, which the scripts print as
    [Updated] and as [Removed _2 entries], is exactly the number of entries
    by which the entity list got shorter. *)
Theorem fix_registry_reports_removed (reg : list entry) :
  ∃ out, Fix.fix_registry reg = Some out ∧
    length out +
      length (filter (λ o, Fix.merged o = true) (Fix.run_ops reg))
    = length reg.
Proof.
  destruct (run_is_Some reg) as [st Hrun]. exists (Fix.contents st). split.
  - unfold Fix.fix_registry. by rewrite Hrun.
  - rewrite (run_contents_length _ _ Hrun).
    unfold Fix.run_ops. rewrite (loop_merged_count _ _ _ _ Hrun).
    simpl. by rewrite length_seq.
Qed.

(** ** The stand-alone fix and its backup copy *)


(** ** Backup, restore and clean together *)

Section backup_more.
Import Backup.

(** The loop of [clean], whatever [unlink] does: the files for which it
    succeeds are deleted and counted. *)
Lemma remove_all_spec (unlink_ok : string → bool) (l : list string)
    (fs : localfs) (n : Z) :
  (remove_all unlink_ok l fs n).1 =
    (n + Z.of_nat (length (filter (λ x, unlink_ok x = true) l)))%Z ∧
  files (remove_all unlink_ok l fs n).2 =
    foldl (λ m x, delete x m) (files fs)
      (filter (λ x, unlink_ok x = true) l).
Proof.
  revert fs n. induction l as [|x l IH]; intros fs n; cbn [remove_all].
  - split; [simpl; lia | done].
  - rewrite filter_cons. destruct (unlink_ok x) eqn:Hx.
    + rewrite decide_True by done.
      destruct (IH (Some (delete x (files fs))) (n + 1)%Z) as [-> ->].
      split; [simpl; lia | done].
    + rewrite decide_False by (by intros [=]). apply IH.
Qed.

Lemma py_slice_from_sublist {A} (k : Z) (l : list A) :
  py_slice_from k l `sublist_of` l.
Proof. unfold py_slice_from. destruct (0 <=? k)%Z; apply sublist_drop. Qed.

(** [clean] deletes a list [gone] of backups, which come from the slice
    and for which [unlink] succeeded, and returns their number. *)
Lemma clean_gone (keep : Z) (unlink_ok : string → bool) (fs : localfs) :
  ∃ gone,
    gone `sublist_of` py_slice_from keep (list_sorted_backups fs) ∧
    Forall (λ x, unlink_ok x = true) gone ∧
    files (clean keep unlink_ok fs).2 =
      foldl (λ m x, delete x m) (files fs) gone ∧
    (clean keep unlink_ok fs).1 = Z.of_nat (length gone).
Proof.
  unfold clean. destruct (negb (bool_decide (is_Some fs))).
  { exists []. split_and!; [apply sublist_nil_l|constructor|done..]. }
  destruct (_ <=? keep)%Z.
  { exists []. split_and!; [apply sublist_nil_l|constructor|done..]. }
  destruct (remove_all_spec unlink_ok
              (py_slice_from keep (list_sorted_backups fs)) fs 0)
    as [Hn Hfs].
  exists (filter (λ x, unlink_ok x = true)
            (py_slice_from keep (list_sorted_backups fs))).
  split_and!; [apply sublist_filter| |exact Hfs|by rewrite Hn].
  apply Forall_forall. by intros x [? _]%list_elem_of_filter.
Qed.

Lemma size_foldl_delete (m : gmap string string) (l : list string) :
  NoDup l → (∀ x, x ∈ l → is_Some (m !! x)) →
  size (foldl (λ m x, delete x m) m l) + length l = size m.
Proof.
  revert m. induction l as [|x l IH]; intros m Hnd Hin; cbn [foldl length].
  { lia. }
  apply NoDup_cons in Hnd as [Hx Hnd].
  assert (is_Some (m !! x)) as Hmx by (apply Hin; left).
  assert (size m ≠ 0).
  { apply map_size_ne_0_lookup. by exists x. }
  specialize (IH (delete x m) Hnd).
  rewrite map_size_delete_Some in IH by done.
  cut (size (foldl (λ m x, delete x m) (delete x m) l) + length l
       = pred (size m)); [lia|].
  apply IH. intros y Hy. rewrite lookup_delete_ne; [apply Hin; by right|].
  intros <-. done.
Qed.

End backup_more.

(** X8.  What [clean] never does, for every [keep] and whatever [unlink]
    does on each file: it changes no content, and the only files it
    deletes are backups (named [entity_registry.*.json]) on which [unlink]
    succeeded; with a [keep] that is not negative, none of the [keep]
    newest backups is deleted. *)
Theorem clean_only_deletes_old_backups (keep : Z)
    (unlink_ok : string → bool) (fs : Backup.localfs) :
  let after := Backup.files (Backup.clean keep unlink_ok fs).2 in
  let backups := Backup.list_sorted_backups fs in
  (∀ name, after !! name = Backup.files fs !! name ∨
           (after !! name = None ∧ name ∈ backups ∧
            unlink_ok name = true)) ∧
  ((0 ≤ keep)%Z →
   ∀ name, name ∈ take (Z.to_nat keep) backups →
           after !! name = Backup.files fs !! name).
Proof.
  intros after backups. subst after.
  destruct (clean_gone keep unlink_ok fs)
    as (gone & Hsub & Hok & -> & _). fold backups in Hsub.
  split.
  - intros name. rewrite lookup_foldl_delete.
    destruct (decide (name ∈ gone)) as [Hin|]; [right|by left].
    split_and!; [done| |].
    + eapply elem_of_sublist; [|apply py_slice_from_sublist].
      by eapply elem_of_sublist.
    + by eapply Forall_forall in Hok.
  - intros Hkeep name Hin. rewrite lookup_foldl_delete.
    rewrite decide_False; [done|]. intros Hgone.
    apply (elem_of_sublist _ _ _ Hgone) in Hsub.
    unfold Backup.py_slice_from in Hsub.
    rewrite (proj2 (Z.leb_le 0 keep) Hkeep) in Hsub.
    assert (Hnd := list_sorted_backups_NoDup fs). fold backups in Hnd.
    rewrite <- (take_drop (Z.to_nat keep) backups) in Hnd.
    apply NoDup_app in Hnd as (_ & Hdisj & _). by eapply Hdisj.
Qed.

(** X9.  The number [clean] returns, and prints as removed, is the number
    of files that left the backup directory, also when some [unlink]
    fails and when [keep] is negative. *)
Theorem clean_counts_deleted_files (keep : Z) (unlink_ok : string → bool)
    (fs : Backup.localfs) :
  (Backup.clean keep unlink_ok fs).1 =
    (Z.of_nat (size (Backup.files fs)) -
     Z.of_nat (size (Backup.files (Backup.clean keep unlink_ok fs).2)))%Z.
Proof.
  destruct (clean_gone keep unlink_ok fs)
    as (gone & Hsub & _ & -> & ->).
  assert (gone `sublist_of` Backup.list_sorted_backups fs) as Hsub'.
  { etrans; [done|apply py_slice_from_sublist]. }
  pose proof (size_foldl_delete (Backup.files fs) gone) as Hsize.
  rewrite <- Hsize; [lia| |].
  - eapply sublist_NoDup; [apply list_sorted_backups_NoDup|done].
  - intros x Hx. apply (elem_of_sublist _ _ _ Hx) in Hsub'.
    by apply elem_of_list_sorted_backups in Hsub' as [_ ?].
Qed.

(** X7.  A backup that [backup] accepted is one [restore] accepts.  When
    [backup] returns a path, [restore] of the same timestamp on the
    directory it left, with a user who confirms, passes every check and
    uploads the text found at that path; it returns [True] exactly when
    the upload and the move succeed. *)
Theorem backup_then_restore (json_loads : string → outcome json)
    (timestamp : string) (scp : Backup.scp_result) (fs fs' : Backup.localfs)
    (path answer : string) (remote : Backup.command → Z) :
  Backup.backup json_loads timestamp scp fs = (Returned (Some path), fs') →
  PyStr.lower answer = "y" →
  ∃ text,
    Backup.files fs' !! path = Some text ∧
    let res := Backup.restore json_loads timestamp answer remote fs' in
    Backup.ScpUpload path text ∈ res.2 ∧
    res.1 = Returned (bool_decide
                        (remote (Backup.ScpUpload path text) = 0%Z ∧
                         remote Backup.SshMoveToRegistry = 0%Z)).
Proof.
  unfold Backup.backup, Backup.restore. intros Hbackup Hanswer.
  destruct (negb _); [done|].
  destruct (Backup.files _ !! _) as [text|] eqn:Hfile; [|done].
  destruct (json_loads text) as [data|e0] eqn:Hparse; [|by destruct e0].
  destruct (Backup.entity_count data) as [n|e] eqn:Hcount; [|done].
  injection Hbackup as <- <-.
  exists text. split; [done|].
  rewrite Hfile, Hparse, Hcount, Hanswer.
  rewrite String.eqb_refl. cbn [negb].
  destruct (remote (Backup.ScpUpload _ text) =? 0)%Z eqn:Hup; cbn [negb].
  - apply Z.eqb_eq in Hup.
    destruct (remote Backup.SshMoveToRegistry =? 0)%Z eqn:Hmv; cbn [negb].
    + apply Z.eqb_eq in Hmv. split; [right; left|].
      by rewrite bool_decide_true.
    + apply Z.eqb_neq in Hmv. split; [right; left|].
      rewrite bool_decide_false; [done|]. by intros [_ ?].
  - apply Z.eqb_neq in Hup. split; [right; left|].
    rewrite bool_decide_false; [done|]. by intros [? _].
Qed.

Lemma backup_then_restore_witness :
  ∃ text,
    Backup.files (Some {[ Backup.backup_name "20260107_120000" :=
                            Samples.registry_text ]})
      !! Backup.backup_name "20260107_120000" = Some text ∧
    let res := Backup.restore Samples.loads "20260107_120000" "Y"
                 Samples.host_ok
                 (Some {[ Backup.backup_name "20260107_120000" :=
                            Samples.registry_text ]}) in
    Backup.ScpUpload (Backup.backup_name "20260107_120000") text ∈ res.2 ∧
    res.1 = Returned (bool_decide
      (Samples.host_ok
         (Backup.ScpUpload (Backup.backup_name "20260107_120000") text)
       = 0%Z ∧
       Samples.host_ok Backup.SshMoveToRegistry = 0%Z)).
Proof.
  apply (backup_then_restore Samples.loads "20260107_120000"
           Cases.good_scp None); [by vm_compute | by vm_compute].
Defined.

(** ** Running a migration plan again *)

Lemma cmd_execute_update_again (id_mapping : gmap string string)
    (reg : list entry) (n k : nat) :
  (∀ old new, id_mapping !! old = Some new → id_mapping !! new = None) →
  Migrate.cmd_execute_update id_mapping
    (Migrate.cmd_execute_update id_mapping reg n).1 k =
  ((Migrate.cmd_execute_update id_mapping reg n).1, k).
Proof.
  intros Hplan. revert n k.
  induction reg as [|e reg IH]; intros n k; [done|].
  cbn [Migrate.cmd_execute_update].
  destruct (id_mapping !! unique_id e) as [new|] eqn:Hm.
  - specialize (IH (S n) k).
    destruct (Migrate.cmd_execute_update id_mapping reg (S n))
      as [rest m] eqn:Hrest.
    cbn [fst snd] in *. cbn [Migrate.cmd_execute_update].
    replace (unique_id (set_unique_id new e)) with new by done.
    rewrite (Hplan _ _ Hm). by rewrite IH.
  - specialize (IH n k).
    destruct (Migrate.cmd_execute_update id_mapping reg n)
      as [rest m] eqn:Hrest.
    cbn [fst snd] in *. cbn [Migrate.cmd_execute_update].
    rewrite Hm. by rewrite IH.
Qed.

(** X13.  Running step 3 of [execute] a second time with the same plan
    changes nothing and counts no update, provided no new id of the plan
    is itself one of its old ids. *)
Theorem execute_twice_changes_nothing (id_mapping : gmap string string)
    (reg : list entry) :
  (∀ old new, id_mapping !! old = Some new → id_mapping !! new = None) →
  Migrate.cmd_execute_update id_mapping
    (Migrate.cmd_execute_update id_mapping reg 0).1 0 =
  ((Migrate.cmd_execute_update id_mapping reg 0).1, 0).
Proof. apply cmd_execute_update_again. Qed.

Lemma execute_twice_changes_nothing_witness :
  Migrate.cmd_execute_update Cases.plan
    (Migrate.cmd_execute_update Cases.plan
       [Samples.kitchen; Samples.scene; Samples.nested] 0).1 0 =
  ((Migrate.cmd_execute_update Cases.plan
      [Samples.kitchen; Samples.scene; Samples.nested] 0).1, 0).
Proof.
  apply execute_twice_changes_nothing.
  intros old new Hm. unfold Cases.plan in *.
  destruct (decide (old = "1700000000001")) as [->|Hne1].
  - rewrite lookup_insert_eq in Hm. by simplify_eq.
  - rewrite lookup_insert_ne in Hm by done.
    apply lookup_singleton_Some in Hm as [<- <-]. done.
Defined.

(** ** Listing the backups *)

Section listing_facts.
Import Listing.

Lemma find_app (c : ascii) (a b : string) :
  find c a = None → find c (a +:+ String c b) = Some (String.length a).
Proof.
  induction a as [|x a IH]; simpl.
  - by rewrite Ascii.eqb_refl.
  - destruct (Ascii.eqb x c); [done|].
    destruct (find c a); [done|]. intros _. by rewrite IH.
Qed.

Lemma rfind_app (c : ascii) (a b : string) :
  rfind c b = None → rfind c (a +:+ String c b) = Some (String.length a).
Proof.
  intros Hb. induction a as [|x a IH]; simpl.
  - by rewrite Hb, Ascii.eqb_refl.
  - by rewrite IH.
Qed.

Lemma drop_first_app (a b : string) :
  PyStr.drop_first (String.length a) (a +:+ b) = b.
Proof. induction a as [|x a IH]; simpl; [done | exact IH]. Qed.

Lemma string_app_assoc (a b c : string) :
  ((a +:+ b) +:+ c = a +:+ (b +:+ c))%string.
Proof.
  induction a as [|x a IH]; [done|].
  change (String x ((a +:+ b) +:+ c) = String x (a +:+ (b +:+ c))).
  by f_equal.
Qed.

(** The name of a backup gives back its timestamp. *)
Lemma timestamp_of_backup_name (timestamp : string) :
  timestamp_of (Backup.backup_name timestamp) = Some timestamp.
Proof.
  unfold timestamp_of, Backup.backup_name.
  assert (stem ("entity_registry." +:+ timestamp +:+ ".json")
          = "entity_registry." +:+ timestamp)%string as ->.
  { unfold stem.
    rewrite <- string_app_assoc.
    change ".json"%string with (String "." "json").
    rewrite rfind_app by done.
    rewrite !string_length_app.
    change (String.length "entity_registry.") with 16.
    change (String.length (String "." "json")) with 5.
    replace (0 <? 16 + String.length timestamp) with true
      by (symmetry; apply Nat.ltb_lt; lia).
    replace (16 + String.length timestamp <?
             16 + String.length timestamp + 5 - 1) with true
      by (symmetry; apply Nat.ltb_lt; lia).
    cbn [andb].
    pose proof (substring_app_l ("entity_registry." +:+ timestamp)
                  (String "." "json")) as Hs.
    rewrite string_length_app in Hs. exact Hs. }
  unfold after_first_dot.
  change ("entity_registry." +:+ timestamp)%string
    with ("entity_registry" +:+ String "." timestamp)%string.
  rewrite find_app by done. cbn [mbind option_bind].
  done.
Qed.

Lemma substring_app_skip (p r : string) (k n : nat) :
  String.substring (String.length p + k) n (p +:+ r) = String.substring k n r.
Proof. induction p as [|x p IH]; simpl; [done | exact IH]. Qed.

(** A name that the glob matches is the name of a backup. *)
Lemma is_backup_name_inv (name : string) :
  Backup.is_backup_name name = true →
  ∃ timestamp, name = Backup.backup_name timestamp.
Proof.
  unfold Backup.is_backup_name, PyStr.startswith.
  intros [[Hpre Hsuf]%andb_true_iff Hlen%Nat.leb_le]%andb_true_iff.
  apply prefix_split in Hpre.
  remember (PyStr.drop_first (String.length "entity_registry.") name)
    as rest eqn:Hr.
  clear Hr. subst name.
  rewrite string_length_app in Hlen.
  change (String.length "entity_registry.") with 16 in Hlen.
  change (String.length ".json") with 5 in Hlen.
  assert (PyStr.endswith ".json" rest = true) as Hrest.
  { unfold PyStr.endswith in *.
    apply andb_true_iff in Hsuf as [_ Hsuf].
    change (String.length ".json") with 5 in *.
    apply andb_true_iff. split; [apply Nat.leb_le; lia|].
    rewrite string_length_app in Hsuf.
    change (String.length "entity_registry.") with 16 in *.
    replace (16 + String.length rest - 5)
      with (String.length "entity_registry." + (String.length rest - 5))
      in Hsuf by (simpl; lia).
    by rewrite substring_app_skip in Hsuf. }
  apply endswith_drop_last in Hrest.
  exists (PyStr.drop_last (String.length ".json") rest).
  unfold Backup.backup_name. by rewrite <- Hrest.
Qed.

Lemma print_rows_spec (json_loads : string → outcome json)
    (fs : Backup.localfs) (backups : list string) :
  (∀ name, name ∈ backups →
     Backup.is_backup_name name = true ∧
     is_Some (Backup.files fs !! name)) →
  match print_rows json_loads fs backups with
  | (rows, None) => Forall2 (row_of json_loads fs) backups rows
  | (rows, Some f) =>
      length rows < length backups ∧
      ∃ name text e,
        f = Uncaught e ∧ name ∈ backups ∧
        Backup.files fs !! name = Some text ∧
        count_entities json_loads text = Raised e
  end.
Proof.
  induction backups as [|name rest IH]; intros Hall; cbn [print_rows].
  { constructor. }
  destruct (Hall name) as [(timestamp & ->)%is_backup_name_inv [text Hf]];
    [left|].
  rewrite timestamp_of_backup_name, Hf.
  destruct (count_entities json_loads text) as [shown|e] eqn:Hcount.
  - specialize (IH (λ n Hn, Hall n (list_elem_of_further _ _ _ Hn))).
    destruct (print_rows json_loads fs rest) as [rows [f|]].
    + destruct IH as (Hlen & n & t & e & -> & Hn & Ht & He).
      split; [simpl; lia|]. exists n, t, e. split_and!; try done. by right.
    + constructor; [|done]. split; [done|]. by exists text.
  - split; [simpl; lia|]. exists (Backup.backup_name timestamp), text, e.
    split_and!; try done. left.
Qed.

(** The listing as a whole. *)
Lemma list_backups_spec (json_loads : string → outcome json)
    (fs : Backup.localfs) :
  match list_backups json_loads fs with
  | (inr backups, rows) =>
      backups = Backup.list_sorted_backups fs ∧
      Forall2 (row_of json_loads fs) backups rows
  | (inl f, rows) =>
      length rows < length (Backup.list_sorted_backups fs) ∧
      ∃ name text e,
        f = Uncaught e ∧ name ∈ Backup.list_sorted_backups fs ∧
        Backup.files fs !! name = Some text ∧
        count_entities json_loads text = Raised e
  end.
Proof.
  unfold list_backups. destruct fs as [m|]; cbn [negb bool_decide].
  - rewrite bool_decide_true by eauto. cbn [negb].
    pose proof (print_rows_spec json_loads (Some m)
                  (Backup.list_sorted_backups (Some m))) as Hrows.
    destruct (Backup.list_sorted_backups (Some m)) as [|b bs] eqn:Hb.
    { split; [done|constructor]. }
    rewrite <- Hb in *.
    assert (∀ name, name ∈ Backup.list_sorted_backups (Some m) →
              Backup.is_backup_name name = true ∧
              is_Some (Backup.files (Some m) !! name)) as Hall.
    { intros name Hn. by apply elem_of_list_sorted_backups in Hn. }
    specialize (Hrows Hall).
    destruct (print_rows _ _ _) as [rows [f|]]; [done|by split].
  - rewrite bool_decide_false by (by intros [? ?]). cbn [negb].
    split; [|constructor]. symmetry.
    apply elem_of_nil_inv. intros name Hn.
    apply elem_of_list_sorted_backups in Hn as [_ [? Hn]].
    unfold Backup.files in Hn. simpl in Hn. by rewrite lookup_empty in Hn.
Qed.

(** Counting the entities raises no exception that a handler of the
    scripts names. *)
Lemma entity_count_Raised (data : json) (e : exn) :
  Backup.entity_count data = Raised e → e = AttributeError ∨ e = TypeError.
Proof.
  unfold Backup.entity_count, Backup.py_get, Backup.py_len.
  destruct data as [| | | | |o]; try (intros [= <-]; by left).
  cbn [mbind outcome_bind].
  destruct (from_option id (JObj []) (assoc "data" o)) as [| | | | |o'];
    try (intros [= <-]; by left).
  cbn [mbind outcome_bind].
  destruct (from_option id (JArr []) (assoc "entities" o'));
    intros [= <-]; by right.
Qed.

(** The three ways the [try] of the listing ends. *)
Lemma count_entities_Some json_loads text n :
  count_entities json_loads text = Returned (Some n) ↔
  ∃ data, json_loads text = Returned data ∧
          Backup.entity_count data = Returned n.
Proof.
  unfold count_entities. destruct (json_loads text) as [data|e].
  - cbn [mbind outcome_bind].
    destruct (Backup.entity_count data) as [m|e] eqn:Hc.
    + split; [intros [= <-]; by exists data|].
      intros (d & [= <-] & Hd). congruence.
    + split; [by destruct e|]. intros (d & [= <-] & Hd). congruence.
  - cbn [mbind outcome_bind]. split; [by destruct e|].
    by intros (d & [=] & _).
Qed.

Lemma count_entities_None json_loads text :
  count_entities json_loads text = Returned None ↔
  json_loads text = Raised JSONDecodeError ∨
  json_loads text = Raised KeyError.
Proof.
  unfold count_entities. destruct (json_loads text) as [data|e].
  - cbn [mbind outcome_bind].
    destruct (Backup.entity_count data) as [m|e] eqn:Hc.
    + split; [done|]. by intros [[=]|[=]].
    + destruct (entity_count_Raised _ _ Hc) as [-> | ->];
        (split; [done|]); by intros [[=]|[=]].
  - cbn [mbind outcome_bind]. destruct e; split; try done;
      try (by intros [[=]|[=]]); try (by left); by right.
Qed.

Lemma count_entities_Raised json_loads text e :
  count_entities json_loads text = Raised e ↔
  e ≠ JSONDecodeError ∧ e ≠ KeyError ∧
  (json_loads text = Raised e ∨
   ∃ data, json_loads text = Returned data ∧
           Backup.entity_count data = Raised e).
Proof.
  unfold count_entities. destruct (json_loads text) as [data|e0].
  - cbn [mbind outcome_bind].
    destruct (Backup.entity_count data) as [m|e1] eqn:Hc.
    + split; [done|]. intros (_ & _ & [[=]|(d & [= <-] & Hd)]). congruence.
    + destruct (entity_count_Raised _ _ Hc) as [-> | ->]; split.
      * intros [= <-]. split_and!; [done..|]. right. by exists data.
      * intros (_ & _ & [[=]|(d & [= <-] & Hd)]). congruence.
      * intros [= <-]. split_and!; [done..|]. right. by exists data.
      * intros (_ & _ & [[=]|(d & [= <-] & Hd)]). congruence.
  - cbn [mbind outcome_bind]. destruct e0; split;
      try (intros [= <-]; split_and!; [done..|by left]);
      try done;
      intros (? & ? & [[= <-]|(d & [=] & _)]); done.
Qed.

End listing_facts.

(** X10.  The timestamp that [list] prints is the one [restore] expects.
    For every timestamp, the name [backup] writes gives that timestamp
    back, dots included; and every file name the glob
    [entity_registry.*.json] matches has a timestamp, from which [restore]
    builds that same name: the listing never fails on a file name. *)
Theorem timestamp_round_trip :
  (∀ timestamp,
     Listing.timestamp_of (Backup.backup_name timestamp) = Some timestamp) ∧
  (∀ name, Backup.is_backup_name name = true →
     ∃ timestamp, Listing.timestamp_of name = Some timestamp ∧
                  Backup.backup_name timestamp = name).
Proof.
  split; [apply timestamp_of_backup_name|].
  intros name (timestamp & ->)%is_backup_name_inv.
  exists timestamp. by rewrite timestamp_of_backup_name.
Qed.

(** X11.  Every run of [list_backups] ends in one of two ways.  It
    returns the backups, newest first, the very list [clean] works on,
    having printed one row per backup with the file's timestamp, its size,
    and its number of entities, or [invalid] when reading the file raises
    [JSONDecodeError] (text that is not JSON) or [KeyError].  Or it breaks
    off with an exception that is not caught, at a backup whose reading
    raises anything else (as [UnicodeDecodeError] on bytes that are not
    text) or which parses as JSON that is not an object of the registry's
    shape; the rows of the backups from that one on are not printed. *)
Theorem list_backups_outcomes (json_loads : string → outcome json)
    (fs : Backup.localfs) :
  match Listing.list_backups json_loads fs with
  | (inr backups, rows) =>
      backups = Backup.list_sorted_backups fs ∧
      Forall2 (λ name r,
        Backup.backup_name (Listing.ts r) = name ∧
        ∃ text, Backup.files fs !! name = Some text ∧
                Listing.size r = String.length text ∧
                match Listing.shown_count r with
                | Some n =>
                    ∃ data, json_loads text = Returned data ∧
                            Backup.entity_count data = Returned n
                | None =>
                    json_loads text = Raised JSONDecodeError ∨
                    json_loads text = Raised KeyError
                end)
        backups rows
  | (inl f, rows) =>
      length rows < length (Backup.list_sorted_backups fs) ∧
      ∃ name text e,
        f = Listing.Uncaught e ∧ name ∈ Backup.list_sorted_backups fs ∧
        Backup.files fs !! name = Some text ∧
        e ≠ JSONDecodeError ∧ e ≠ KeyError ∧
        (json_loads text = Raised e ∨
         ∃ data, json_loads text = Returned data ∧
                 Backup.entity_count data = Raised e)
  end.
Proof.
  pose proof (list_backups_spec json_loads fs) as Hspec.
  destruct (Listing.list_backups json_loads fs) as [[f|backups] rows].
  - destruct Hspec as (Hlen & name & text & e & -> & Hn & Ht & Hc).
    apply count_entities_Raised in Hc as (Hne1 & Hne2 & Hc).
    split; [done|]. by exists name, text, e.
  - destruct Hspec as [-> Hrows]. split; [done|].
    eapply Forall2_impl; [exact Hrows|].
    intros name r (Hts & text & Ht & Hsize & Hc). split; [done|].
    exists text. split_and!; [done..|].
    destruct (Listing.shown_count r) as [n|].
    + by apply count_entities_Some.
    + by apply count_entities_None.
Qed.

(** X12.  The listing and [restore] agree, [open] and [json.load] being
    functions that do not raise [KeyError].  After a listing that went
    through, a row shown as [invalid] names a timestamp that [restore]
    refuses without sending anything, whatever the user answers; a row
    shown with a number of entities names a timestamp whose file
    [restore] uploads once the user confirms. *)
Theorem listed_backups_restore (json_loads : string → outcome json)
    (fs : Backup.localfs) (backups : list string) (rows : list Listing.row)
    (i : nat) (r : Listing.row) :
  (∀ text, json_loads text ≠ Raised KeyError) →
  Listing.list_backups json_loads fs = (inr backups, rows) →
  rows !! i = Some r →
  match Listing.shown_count r with
  | None =>
      ∀ answer remote,
        Backup.restore json_loads (Listing.ts r) answer remote fs =
          (Returned false, [])
  | Some n =>
      ∀ answer remote, PyStr.lower answer = "y" →
        ∃ text,
          Backup.files fs !! Backup.backup_name (Listing.ts r) = Some text ∧
          Backup.ScpUpload (Backup.backup_name (Listing.ts r)) text ∈
            (Backup.restore json_loads (Listing.ts r) answer remote fs).2
  end.
Proof.
  intros Hload Hlist Hi.
  pose proof (list_backups_spec json_loads fs) as Hspec.
  rewrite Hlist in Hspec. destruct Hspec as [-> Hrows].
  destruct (Forall2_lookup_r _ _ _ _ _ Hrows Hi)
    as (name & _ & Hts & text & Ht & _ & Hc).
  rewrite <- Hts in Ht. unfold Backup.restore. rewrite Ht.
  destruct (Listing.shown_count r) as [n|].
  - apply count_entities_Some in Hc as (data & -> & ->).
    intros answer remote ->.
    exists text. split; [done|].
    rewrite String.eqb_refl. cbn [negb].
    destruct (remote (Backup.ScpUpload _ text) =? 0)%Z; cbn [negb];
      [destruct (remote Backup.SshMoveToRegistry =? 0)%Z; cbn [negb]|];
      right; left.
  - apply count_entities_None in Hc as [-> | Hc]; [done|].
    by destruct (Hload text).
Qed.

Lemma listed_backups_restore_witness :
  Backup.restore Samples.loads "20260102_000000" "y" Samples.host_ok
    Cases.listed_dir = (Returned false, []).
Proof.
  refine (listed_backups_restore Samples.loads Cases.listed_dir
            ["entity_registry.20260102_000000.json";
             "entity_registry.20260101_000000.json"]
            [Listing.Row "20260102_000000" None 14;
             Listing.Row "20260101_000000" (Some 2%Z) 32]
            0 (Listing.Row "20260102_000000" None 14)
            _ ltac:(by vm_compute) ltac:(reflexivity) "y" Samples.host_ok).
  intros text. unfold Samples.loads. by repeat case_decide.
Defined.

(** ** The workflows of the migration tool *)

Section workflow_facts.
Import Workflow.

Lemma wait_rounds_spec (probe : nat → http_result) (n i : nat) :
  (wait_rounds probe n i).1 =
    replicate (length (wait_rounds probe n i).1) Probe ∧
  match (wait_rounds probe n i).2 with
  | inr true =>
      ∃ k, k < n ∧ length (wait_rounds probe n i).1 = S k ∧
           (∀ j, j < k → probe (i + j) = Responded) ∧
           caught_as_URLError (probe (i + k))
  | inr false =>
      length (wait_rounds probe n i).1 = n ∧
      ∀ j, j < n → probe (i + j) = Responded
  | inl (Crashed e) =>
      ∃ k, k < n ∧ length (wait_rounds probe n i).1 = S k ∧
           (∀ j, j < k → probe (i + j) = Responded) ∧
           probe (i + k) = OtherError e
  | inl _ => False
  end.
Proof.
  revert i. induction n as [|n IH]; intros i.
  { split; [done|]. split; [done|]. intros j Hj. lia. }
  cbn [wait_rounds]. unfold emit.
  destruct (probe i) as [|code text|text|e] eqn:Hp.
  - specialize (IH (S i)).
    destruct (wait_rounds probe n (S i)) as [t r].
    cbn [mbind proc_bind fst snd app length replicate] in *.
    destruct IH as [Ht IH]. split; [by f_equal|].
    assert (∀ k, (∀ j, j < k → probe (S i + j) = Responded) →
                 ∀ j, j < S k → probe (i + j) = Responded) as Hshift.
    { intros k Hk [|j] Hj; [by rewrite Nat.add_0_r|].
      rewrite <- Nat.add_succ_comm. apply Hk. lia. }
    destruct r as [[|c|e]|[|]]; try done.
    + destruct IH as (k & Hkn & Hlen & Hbefore & Hat).
      exists (S k). rewrite <- Nat.add_succ_comm.
      split_and!; [lia|by rewrite Hlen|by apply Hshift|done].
    + destruct IH as (k & Hkn & Hlen & Hbefore & Hat).
      exists (S k). rewrite <- Nat.add_succ_comm.
      split_and!; [lia|by rewrite Hlen|by apply Hshift|done].
    + destruct IH as [Hlen Hall]. split; [by rewrite Hlen|by apply Hshift].
  - cbn. split; [done|]. exists 0. rewrite Nat.add_0_r, Hp.
    split_and!; [lia|done| |done]. intros j Hj. lia.
  - cbn. split; [done|]. exists 0. rewrite Nat.add_0_r, Hp.
    split_and!; [lia|done| |done]. intros j Hj. lia.
  - cbn. split; [done|]. exists 0. rewrite Nat.add_0_r.
    split_and!; [lia|done| |done]. intros j Hj. lia.
Qed.

Lemma wait_for_ha_stop_trace (max_wait : Z) (probe : nat → http_result) :
  ∃ k, (wait_for_ha_stop max_wait probe).1 = replicate k Probe.
Proof.
  eexists. apply (wait_rounds_spec probe (Z.to_nat (max_wait / 2)) 0).
Qed.

Lemma wait_for_ha_stop_ending (max_wait : Z) (probe : nat → http_result)
    (e : ending) :
  (wait_for_ha_stop max_wait probe).2 = inl e → ∃ x, e = Crashed x.
Proof.
  unfold wait_for_ha_stop.
  destruct (wait_rounds_spec probe (Z.to_nat (max_wait / 2)) 0) as [_ H].
  intros Hr. rewrite Hr in H. destruct e; try done. by eexists.
Qed.

End workflow_facts.

(** X14.  [wait_for_ha_stop] polls at most [max_wait // 2] times, two
    seconds of sleep before each poll, so that it never sleeps longer than
    [max_wait] seconds, and not at all when [max_wait] is below 2.  It
    returns [True] at the first poll that fails with [URLError], which an
    answer with an HTTP error status does as well ([HTTPError] is a
    [URLError]); it returns [False] when all polls were answered; any other
    exception of a poll escapes. *)
Theorem wait_for_ha_stop_bounded (max_wait : Z)
    (probe : nat → Workflow.http_result) :
  let res := Workflow.wait_for_ha_stop max_wait probe in
  let polls := length res.1 in
  res.1 = replicate polls Workflow.Probe ∧
  (2 * Z.of_nat polls ≤ Z.max 0 max_wait)%Z ∧
  match res.2 with
  | inr true =>
      ∃ k, polls = S k ∧
           (∀ j, j < k → probe j = Workflow.Responded) ∧
           caught_as_URLError (probe k)
  | inr false =>
      polls = Z.to_nat (max_wait / 2) ∧
      ∀ j, j < polls → probe j = Workflow.Responded
  | inl (Workflow.Crashed e) =>
      ∃ k, polls = S k ∧
           (∀ j, j < k → probe j = Workflow.Responded) ∧
           probe k = Workflow.OtherError e
  | inl _ => False
  end.
Proof.
  intros res polls. subst res polls. unfold Workflow.wait_for_ha_stop.
  pose proof (wait_rounds_spec probe (Z.to_nat (max_wait / 2)) 0)
    as [Htrace Hres].
  set (n := Z.to_nat (max_wait / 2)) in *.
  assert (2 * Z.of_nat n ≤ Z.max 0 max_wait)%Z as Hn.
  { subst n. destruct (decide (0 ≤ max_wait)%Z) as [Hpos|Hneg].
    - rewrite Z2Nat.id by (apply Z.div_pos; lia).
      pose proof (Z.mul_div_le max_wait 2). lia.
    - assert (max_wait / 2 < 0)%Z by (apply Z.div_lt_upper_bound; lia).
      lia. }
  split; [done|].
  destruct (Workflow.wait_rounds probe n 0) as [t r]. cbn [fst snd] in *.
  destruct r as [[|c|e]|[|]]; try done.
  - destruct Hres as (k & Hk & Hlen & Hbefore & Hat).
    split; [lia|]. by exists k.
  - destruct Hres as (k & Hk & Hlen & Hbefore & Hat).
    split; [lia|]. by exists k.
  - destruct Hres as [Hlen Hall]. split; [lia|].
    split; [done|]. intros j Hj. apply Hall. lia.
Qed.

Section workflow_commands.
Import Workflow.

Lemma bind_elem_of {A B} (m : proc A) (k : A → proc B) (ev : event) :
  ev ∈ (m ≫= k).1 ↔ ev ∈ m.1 ∨ ∃ a, m.2 = inr a ∧ ev ∈ (k a).1.
Proof.
  destruct m as [t [e|a]]; cbn.
  - split; [by left|]. intros [?|(a & [=] & _)]; done.
  - destruct (k a) as [t' r] eqn:Hk. cbn. rewrite elem_of_app. split.
    + intros [?|?]; [by left|]. right. exists a. by rewrite Hk.
    + intros [?|(a' & [= <-] & Hin)]; [by left|]. rewrite Hk in Hin.
      by right.
Qed.

Lemma bind_returns {A B} (m : proc A) (k : A → proc B) (b : B) :
  (m ≫= k).2 = inr b ↔ ∃ a, m.2 = inr a ∧ (k a).2 = inr b.
Proof.
  destruct m as [t [e|a]]; cbn.
  - split; [done|]. by intros (a & [=] & _).
  - destruct (k a) as [t' r] eqn:Hk. cbn. split.
    + intros ->. exists a. by rewrite Hk.
    + intros (a' & [= <-] & Hr). by rewrite Hk in Hr.
Qed.

Lemma guard_trace (ok : bool) (ev : event) : ev ∉ (guard ok).1.
Proof. destruct ok; apply not_elem_of_nil. Qed.

Lemma guard_returns (ok : bool) (u : unit) :
  (guard ok).2 = inr u ↔ ok = true.
Proof. destruct ok, u; cbn; split; done. Qed.

Lemma of_outcome_trace {A} (o : outcome A) (ev : event) :
  ev ∉ (of_outcome o).1.
Proof. destruct o; apply not_elem_of_nil. Qed.

Lemma of_outcome_returns {A} (o : outcome A) (a : A) :
  (of_outcome o).2 = inr a ↔ o = Returned a.
Proof. destruct o; cbn; split; congruence. Qed.

Lemma stop_ha_trace (token : option string) (response : http_result)
    (ev : event) :
  ev ∈ (stop_ha token response).1 → ev = StopRequest.
Proof.
  unfold stop_ha. destruct token as [[|c s]|]; cbn;
    try (by intros ?%elem_of_nil).
  destruct response; cbn; by intros ->%list_elem_of_singleton.
Qed.

Lemma wait_trace (max_wait : Z) (probe : nat → http_result) (ev : event) :
  ev ∈ (wait_for_ha_stop max_wait probe).1 → ev = Probe.
Proof.
  destruct (wait_for_ha_stop_trace max_wait probe) as [k ->].
  by intros [-> _]%elem_of_replicate.
Qed.

Section commands.
Variable json_loads : string → outcome json.
Variable decode : string → outcome FixMain.document.
Variable encode : FixMain.document → string.

Lemma create_backup_trace (w : world) (ev : event) :
  ev ∈ (create_backup json_loads w).1 → ev = LocalBackup.
Proof.
  unfold create_backup. destruct (backup_module w); cbn;
    [|by intros ?%elem_of_nil].
  destruct (Backup.backup _ _ _ _) as [[[p|]|e] fs']; cbn;
    by intros ->%list_elem_of_singleton.
Qed.

Lemma create_backup_returns (w : world) (u : unit) :
  (create_backup json_loads w).2 = inr u ↔
  (backup_module w = true →
   ∃ path, (Backup.backup json_loads (clock w) (backup_scp w)
              (backup_dir w)).1 = Returned (Some path)).
Proof.
  destruct u. unfold create_backup. destruct (backup_module w); [|done].
  destruct (Backup.backup _ _ _ _) as [[[p|]|e] fs']; cbn.
  - split; [by eexists|done].
  - split; [done|]. intros H. by destruct (H eq_refl).
  - split; [done|]. intros H. by destruct (H eq_refl).
Qed.

Lemma fetch_registry_trace (w : world) (ev : event) :
  ev ∈ (fetch_registry decode w).1 → ev = Fetch.
Proof.
  unfold fetch_registry. destruct (fetched w) as [raw|]; cbn;
    [|by intros ->%list_elem_of_singleton].
  destruct (decode raw); cbn; by intros ->%list_elem_of_singleton.
Qed.

Lemma fetch_registry_returns (w : world) (registry : FixMain.document) :
  (fetch_registry decode w).2 = inr registry ↔
  ∃ raw, fetched w = Some raw ∧ decode raw = Returned registry.
Proof.
  unfold fetch_registry. destruct (fetched w) as [raw|]; cbn.
  - destruct (decode raw) as [r|e] eqn:Hd; cbn.
    + split; [intros [= <-]; by exists raw|]. intros (? & [= <-] & ?).
      congruence.
    + split; [done|]. intros (? & [= <-] & ?). congruence.
  - split; [done|]. by intros (? & [=] & _).
Qed.

Lemma install_eq (text : string) (w : world) :
  install text w =
    if put_ok w then
      if (mv_returncode w =? 0)%Z
      then ([Upload text; Move; Reboot], inr ())
      else ([Upload text; Move], inl (Exited 1))
    else ([Upload text], inl (Exited 1)).
Proof.
  unfold install. by destruct (put_ok w), (mv_returncode w =? 0)%Z.
Qed.

End commands.
End workflow_commands.

Section workflow_runs.
Import Workflow.
Variable json_loads : string → outcome json.
Variable decode : string → outcome FixMain.document.
Variable encode : FixMain.document → string.

Lemma confirmed_trace (input : outcome string) (ev : event) :
  ev ∉ (confirmed input).1.
Proof.
  unfold confirmed. destruct input as [a|e]; cbn; [|apply not_elem_of_nil].
  destruct (negb _); apply not_elem_of_nil.
Qed.

Lemma confirmed_returns (input : outcome string) (u : unit) :
  (confirmed input).2 = inr u ↔
  ∃ a, input = Returned a ∧ PyStr.lower a = "y".
Proof.
  destruct u. unfold confirmed. destruct input as [a|e]; cbn.
  - destruct (String.eqb (PyStr.lower a) "y") eqn:Ha; cbn.
    + apply String.eqb_eq in Ha. split; [by exists a|done].
    + apply String.eqb_neq in Ha. split; [done|].
      intros (? & [= <-] & ?). done.
  - split; [done|]. by intros (? & [=] & _).
Qed.

Lemma bind_result {A B} (m : proc A) (k : A → proc B) (a : A) :
  m.2 = inr a → (m ≫= k).2 = (k a).2.
Proof.
  destruct m as [t [e|a']]; cbn; [done|]. intros [= ->].
  by destruct (k a).
Qed.

Lemma continue_anyway_trace (gone : bool) (input : outcome string)
    (ev : event) :
  ev ∉ (continue_anyway gone input).1.
Proof.
  unfold continue_anyway. destruct gone; cbn; [apply not_elem_of_nil|].
  destruct input as [a|e]; cbn; [|apply not_elem_of_nil].
  destruct (String.eqb _ _); apply not_elem_of_nil.
Qed.

Lemma continue_anyway_returns (gone : bool) (input : outcome string)
    (u : unit) :
  (continue_anyway gone input).2 = inr u ↔
  gone = true ∨ ∃ a, input = Returned a ∧ PyStr.lower a = "y".
Proof.
  unfold continue_anyway. destruct u, gone; cbn; [split; [by left|done]|].
  destruct input as [a|e]; cbn.
  - destruct (String.eqb (PyStr.lower a) "y") eqn:Ha; cbn.
    + apply String.eqb_eq in Ha. split; [right; by exists a|done].
    + apply String.eqb_neq in Ha. split; [done|].
      intros [?|(? & [= <-] & ?)]; done.
  - split; [done|]. by intros [?|(? & [=] & _)].
Qed.

Lemma install_trace (text : string) (w : world) (ev : event) :
  ev ∈ (install text w).1 ↔
    ev = Upload text ∨
    (ev = Move ∧ put_ok w = true) ∨
    (ev = Reboot ∧ put_ok w = true ∧ mv_returncode w = 0%Z).
Proof.
  rewrite install_eq. destruct (put_ok w).
  - destruct (mv_returncode w =? 0)%Z eqn:Hmv; cbn [fst].
    + apply Z.eqb_eq in Hmv. rewrite !elem_of_cons, elem_of_nil.
      split; [intros [->|[->|[->|[]]]]|]; intuition congruence.
    + apply Z.eqb_neq in Hmv. rewrite !elem_of_cons, elem_of_nil.
      split; [intros [->|[->|[]]]|]; intuition congruence.
  - cbn [fst]. rewrite !elem_of_cons, elem_of_nil.
    split; [intros [->|[]]|]; intuition congruence.
Qed.

Lemma install_returns (text : string) (w : world) (u : unit) :
  (install text w).2 = inr u ↔ put_ok w = true ∧ mv_returncode w = 0%Z.
Proof.
  destruct u. rewrite install_eq. destruct (put_ok w).
  - destruct (mv_returncode w =? 0)%Z eqn:Hmv; cbn [snd].
    + apply Z.eqb_eq in Hmv. done.
    + apply Z.eqb_neq in Hmv. split; [done|]. by intros [_ ?].
  - cbn [snd]. split; [done|]. by intros [? _].
Qed.

Lemma cmd_execute_split (w : world) :
  (∀ ev, ev ∈ (cmd_execute json_loads decode encode w).1 →
     ev = LocalBackup ∨ ev = StopRequest ∨ ev = Probe ∨ ev = Fetch ∨
     ∃ text, execute_ready json_loads decode encode w text ∧ ev ∈ (install text w).1) ∧
  (∀ text, execute_ready json_loads decode encode w text →
     (∀ ev, ev ∈ (install text w).1 →
            ev ∈ (cmd_execute json_loads decode encode w).1) ∧
     (cmd_execute json_loads decode encode w).2 = (install text w).2) ∧
  ((cmd_execute json_loads decode encode w).2 = inr () →
   ∃ text, execute_ready json_loads decode encode w text).
Proof.
  unfold cmd_execute. split_and!.
  - intros ev H.
    apply bind_elem_of in H as [H|([] & Hc & H)];
      [by apply confirmed_trace in H|].
    apply bind_elem_of in H as [H|([] & Hb & H)];
      [left; by eapply create_backup_trace|].
    apply bind_elem_of in H as [H|(items & Hm & H)];
      [by apply of_outcome_trace in H|].
    apply bind_elem_of in H as [H|([] & Hi & H)];
      [by apply guard_trace in H|].
    apply bind_elem_of in H as [H|(stopped & Hs & H)];
      [right; left; by eapply stop_ha_trace|].
    apply bind_elem_of in H as [H|([] & Hg & H)];
      [by apply guard_trace in H|].
    apply bind_elem_of in H as [H|(gone & Hw & H)];
      [right; right; left; by eapply wait_trace|].
    apply bind_elem_of in H as [H|([] & Ha & H)];
      [by apply continue_anyway_trace in H|].
    apply bind_elem_of in H as [H|(registry & Hf & H)];
      [right; right; right; left; by eapply fetch_registry_trace|].
    right; right; right; right.
    apply confirmed_returns in Hc.
    pose proof (proj1 (create_backup_returns _ _ _) Hb) as Hb'.
    apply of_outcome_returns in Hm. apply guard_returns in Hi, Hg.
    apply continue_anyway_returns in Ha.
    apply fetch_registry_returns in Hf as (raw & Hraw & Hdec).
    subst stopped. apply negb_true_iff, bool_decide_eq_false in Hi.
    destruct (Migrate.cmd_execute_update _ _ _) as [entities n] eqn:Hup.
    eexists. split; [|exact H].
    unfold execute_ready. split_and!; [done..| |].
    + destruct gone; [by left|right]. split; [done|].
      by destruct Ha as [?|?].
    + exists items, raw, registry. rewrite Hup. done.
  - intros text (Hc & Hb & Hs & Hw & items & raw & registry & Hm & Hi & Hraw
                 & Hdec & ->).
    apply confirmed_returns with (u := ()) in Hc.
    apply create_backup_returns with (u := ()) in Hb.
    apply of_outcome_returns in Hm.
    assert ((guard (negb (bool_decide (items = [])))).2 = inr ()) as Hgi.
    { apply guard_returns, negb_true_iff. by apply bool_decide_eq_false. }
    assert ((guard true).2 = inr ()) as Hg by done.
    assert (∃ gone, (wait_for_ha_stop 60 (probe w)).2 = inr gone ∧
              (continue_anyway gone (confirm_anyway w)).2 = inr ())
      as (gone & Hgone & Ha).
    { destruct Hw as [Hw|[Hw Ha]]; [exists true|exists false];
        (split; [done|]); apply continue_anyway_returns; [by left|by right]. }
    assert ((fetch_registry decode w).2 = inr registry) as Hf.
    { apply fetch_registry_returns. by exists raw. }
    destruct (Migrate.cmd_execute_update _ _ _) as [entities n] eqn:Hup.
    split.
    + intros ev Hev.
      apply bind_elem_of; right; exists (); split; [done|].
      apply bind_elem_of; right; exists (); split; [done|].
      apply bind_elem_of; right; exists items; split; [done|].
      apply bind_elem_of; right; exists (); split; [done|].
      apply bind_elem_of; right; exists true; split; [done|].
      apply bind_elem_of; right; exists (); split; [done|].
      apply bind_elem_of; right; exists gone; split; [done|].
      apply bind_elem_of; right; exists (); split; [done|].
      apply bind_elem_of; right; exists registry; split; [done|].
      by rewrite Hup.
    + rewrite (bind_result _ _ () Hc), (bind_result _ _ () Hb),
        (bind_result _ _ items Hm), (bind_result _ _ () Hgi),
        (bind_result _ _ true Hs), (bind_result _ _ () Hg),
        (bind_result _ _ gone Hgone), (bind_result _ _ () Ha),
        (bind_result _ _ registry Hf).
      by rewrite Hup.
  - intros H.
    apply bind_returns in H as ([] & Hc & H).
    apply bind_returns in H as ([] & Hb & H).
    apply bind_returns in H as (items & Hm & H).
    apply bind_returns in H as ([] & Hi & H).
    apply bind_returns in H as (stopped & Hs & H).
    apply bind_returns in H as ([] & Hg & H).
    apply bind_returns in H as (gone & Hw & H).
    apply bind_returns in H as ([] & Ha & H).
    apply bind_returns in H as (registry & Hf & H).
    apply confirmed_returns in Hc.
    pose proof (proj1 (create_backup_returns _ _ _) Hb) as Hb'.
    apply of_outcome_returns in Hm. apply guard_returns in Hi, Hg.
    apply continue_anyway_returns in Ha.
    apply fetch_registry_returns in Hf as (raw & Hraw & Hdec).
    subst stopped. apply negb_true_iff, bool_decide_eq_false in Hi.
    eexists. unfold execute_ready. split_and!; [done..| |].
    + destruct gone; [by left|right]. split; [done|].
      by destruct Ha as [?|?].
    + by exists items, raw, registry.
Qed.

Lemma cmd_fix_registry_split (w : world) :
  (∀ ev, ev ∈ (cmd_fix_registry json_loads decode encode w).1 →
     ev = LocalBackup ∨ ev = StopRequest ∨ ev = Probe ∨ ev = Fetch ∨
     ∃ text, fix_ready json_loads decode encode w text ∧
             ev ∈ (install text w).1) ∧
  (∀ text, fix_ready json_loads decode encode w text →
     (∀ ev, ev ∈ (install text w).1 →
            ev ∈ (cmd_fix_registry json_loads decode encode w).1) ∧
     (cmd_fix_registry json_loads decode encode w).2 = (install text w).2) ∧
  ((cmd_fix_registry json_loads decode encode w).2 = inr () →
   ∃ text, fix_ready json_loads decode encode w text).
Proof.
  unfold cmd_fix_registry. split_and!.
  - intros ev H.
    apply bind_elem_of in H as [H|([] & Hc & H)];
      [by apply confirmed_trace in H|].
    apply bind_elem_of in H as [H|([] & Hb & H)];
      [left; by eapply create_backup_trace|].
    apply bind_elem_of in H as [H|(stopped & Hs & H)];
      [right; left; by eapply stop_ha_trace|].
    apply bind_elem_of in H as [H|([] & Hg & H)];
      [by apply guard_trace in H|].
    apply bind_elem_of in H as [H|(gone & Hw & H)];
      [right; right; left; by eapply wait_trace|].
    apply bind_elem_of in H as [H|(registry & Hf & H)];
      [right; right; right; left; by eapply fetch_registry_trace|].
    right; right; right; right.
    apply confirmed_returns in Hc.
    pose proof (proj1 (create_backup_returns _ _ _) Hb) as Hb'.
    apply guard_returns in Hg.
    apply fetch_registry_returns in Hf as (raw & Hraw & Hdec).
    subst stopped.
    destruct (Fix.fix_registry _) as [entities|] eqn:Hfix;
      [|by apply elem_of_nil in H].
    eexists. split; [|exact H].
    unfold fix_ready. split_and!; [done..|by exists gone|].
    by exists raw, registry, entities.
  - intros text (Hc & Hb & Hs & [gone Hw] & raw & registry & entities & Hraw
                 & Hdec & Hfix & ->).
    apply confirmed_returns with (u := ()) in Hc.
    apply create_backup_returns with (u := ()) in Hb.
    assert ((guard true).2 = inr ()) as Hg by done.
    assert ((fetch_registry decode w).2 = inr registry) as Hf.
    { apply fetch_registry_returns. by exists raw. }
    split.
    + intros ev Hev.
      apply bind_elem_of; right; exists (); split; [done|].
      apply bind_elem_of; right; exists (); split; [done|].
      apply bind_elem_of; right; exists true; split; [done|].
      apply bind_elem_of; right; exists (); split; [done|].
      apply bind_elem_of; right; exists gone; split; [done|].
      apply bind_elem_of; right; exists registry; split; [done|].
      by rewrite Hfix.
    + rewrite (bind_result _ _ () Hc), (bind_result _ _ () Hb),
        (bind_result _ _ true Hs), (bind_result _ _ () Hg),
        (bind_result _ _ gone Hw), (bind_result _ _ registry Hf).
      by rewrite Hfix.
  - intros H.
    apply bind_returns in H as ([] & Hc & H).
    apply bind_returns in H as ([] & Hb & H).
    apply bind_returns in H as (stopped & Hs & H).
    apply bind_returns in H as ([] & Hg & H).
    apply bind_returns in H as (gone & Hw & H).
    apply bind_returns in H as (registry & Hf & H).
    apply confirmed_returns in Hc.
    pose proof (proj1 (create_backup_returns _ _ _) Hb) as Hb'.
    apply guard_returns in Hg.
    apply fetch_registry_returns in Hf as (raw & Hraw & Hdec).
    subst stopped.
    destruct (Fix.fix_registry _) as [entities|] eqn:Hfix; [|done].
    eexists. unfold fix_ready. split_and!; [done..|by exists gone|].
    by exists raw, registry, entities.
Qed.

(** What follows from such a splitting of a command [cmd] into a quiet
    part, which ends in the text to upload when [ready] holds, and
    [install]. *)
Lemma split_uploads (cmd : proc unit) (ready : string → Prop) (w : world) :
  (∀ ev, ev ∈ cmd.1 →
     ev = LocalBackup ∨ ev = StopRequest ∨ ev = Probe ∨ ev = Fetch ∨
     ∃ text, ready text ∧ ev ∈ (install text w).1) →
  (∀ text, ready text →
     (∀ ev, ev ∈ (install text w).1 → ev ∈ cmd.1) ∧
     cmd.2 = (install text w).2) →
  (cmd.2 = inr () → ∃ text, ready text) →
  (∀ text, Upload text ∈ cmd.1 ↔ ready text) ∧
  (Move ∈ cmd.1 ↔ (∃ text, Upload text ∈ cmd.1) ∧ put_ok w = true) ∧
  (Reboot ∈ cmd.1 ↔ Move ∈ cmd.1 ∧ mv_returncode w = 0%Z) ∧
  (cmd.2 = inr () ↔ Reboot ∈ cmd.1).
Proof.
  intros Hsplit Hready Hend.
  assert (∀ text, Upload text ∈ cmd.1 ↔ ready text) as Hup.
  { intros text. split.
    - intros [?|[?|[?|[?|(text' & Hr & Hin)]]]]%Hsplit; try done.
      apply install_trace in Hin as [[= ->]|[[? _]|[? _]]]; done.
    - intros Hr. apply (Hready text Hr), install_trace. by left. }
  assert (Move ∈ cmd.1 ↔ (∃ text, ready text) ∧ put_ok w = true) as Hmv.
  { split.
    - intros [?|[?|[?|[?|(text & Hr & Hin)]]]]%Hsplit; try done.
      apply install_trace in Hin as [?|[[_ ?]|[? _]]]; try done.
      split; [by exists text|done].
    - intros [[text Hr] Hput]. apply (Hready text Hr), install_trace.
      right. by left. }
  assert (Reboot ∈ cmd.1 ↔
          (∃ text, ready text) ∧ put_ok w = true ∧ mv_returncode w = 0%Z)
    as Hrb.
  { split.
    - intros [?|[?|[?|[?|(text & Hr & Hin)]]]]%Hsplit; try done.
      apply install_trace in Hin as [?|[[? _]|[_ [? ?]]]]; try done.
      split; [by exists text|done].
    - intros [[text Hr] Hput]. apply (Hready text Hr), install_trace.
      right. by right. }
  split_and!; [done| | |].
  - rewrite Hmv. split; intros [[text Hr] ?]; (split; [|done]);
      exists text; by apply Hup.
  - rewrite Hrb, Hmv. tauto.
  - rewrite Hrb. split.
    + intros Hres. destruct (Hend Hres) as [text Hr].
      split; [by exists text|].
      destruct (Hready text Hr) as [_ Heq]. rewrite Heq in Hres.
      by apply install_returns in Hres.
    + intros [[text Hr] Hok]. destruct (Hready text Hr) as [_ ->].
      by apply install_returns.
Qed.

End workflow_runs.

(** X15.  [execute] replaces the registry of the host only when
    everything before went well, and reboots only after that.  It uploads
    a text exactly when: the user confirmed; the backup, if the backup
    module could be imported, returned a path; the plan holds a
    migration; the stop request was accepted; Home Assistant was seen to
    stop or the user confirmed once more; and the registry was fetched
    and read.  The text uploaded is that registry with the plan applied.
    The move over the registry follows exactly a successful upload, the
    reboot exactly a successful move, and the command runs to its last
    line exactly when it has rebooted: a run that exits after Home
    Assistant was stopped leaves it stopped. *)
Theorem execute_installs_when_ready (json_loads : string → outcome json)
    (decode : string → outcome FixMain.document)
    (encode : FixMain.document → string) (w : Workflow.world) :
  let run := Workflow.cmd_execute json_loads decode encode w in
  (∀ text, Workflow.Upload text ∈ run.1 ↔
           execute_ready json_loads decode encode w text) ∧
  (Workflow.Move ∈ run.1 ↔
     (∃ text, Workflow.Upload text ∈ run.1) ∧ Workflow.put_ok w = true) ∧
  (Workflow.Reboot ∈ run.1 ↔
     Workflow.Move ∈ run.1 ∧ Workflow.mv_returncode w = 0%Z) ∧
  (run.2 = inr () ↔ Workflow.Reboot ∈ run.1).
Proof.
  intros run. subst run.
  destruct (cmd_execute_split json_loads decode encode w)
    as (Hsplit & Hready & Hend).
  by apply split_uploads.
Qed.

(** X16.  [fix-registry] replaces the registry of the host exactly when:
    the user confirmed; the backup, if the backup module could be
    imported, returned a path; the stop request was accepted; the wait
    for Home Assistant to stop raised nothing, whether it saw Home
    Assistant stop or timed out; and the registry was fetched and read.
    The text uploaded is that registry with its [_2] duplicates merged.
    The move follows exactly a successful upload, the reboot exactly a
    successful move, and the command runs to its last line exactly when it
    has rebooted. *)
Theorem fix_registry_installs_when_ready
    (json_loads : string → outcome json)
    (decode : string → outcome FixMain.document)
    (encode : FixMain.document → string) (w : Workflow.world) :
  let run := Workflow.cmd_fix_registry json_loads decode encode w in
  (∀ text, Workflow.Upload text ∈ run.1 ↔
           fix_ready json_loads decode encode w text) ∧
  (Workflow.Move ∈ run.1 ↔
     (∃ text, Workflow.Upload text ∈ run.1) ∧ Workflow.put_ok w = true) ∧
  (Workflow.Reboot ∈ run.1 ↔
     Workflow.Move ∈ run.1 ∧ Workflow.mv_returncode w = 0%Z) ∧
  (run.2 = inr () ↔ Workflow.Reboot ∈ run.1).
Proof.
  intros run. subst run.
  destruct (cmd_fix_registry_split json_loads decode encode w)
    as (Hsplit & Hready & Hend).
  by apply split_uploads.
Qed.
